(** * DragDropSample: the grid-snap widget of [src/app/app.component.ts]

    A shallow embedding of [AppComponent]: the coordinate caches, the
    intersection resolution ([createCoordsArray], [intersectArrayIndex]),
    the index update ([updateRowIndex], [updateColIndex], [updateIndices]),
    the drop handler ([calcCenter], [dragDropped]) and the lifecycle hooks
    ([ngAfterViewInit], [animationLoop], [ngOnDestroy]).

    Numbers.  A TypeScript [number] is an IEEE double.  Here a finite
    double is the rational it denotes, kept in lowest terms, and the three
    special values +Infinity, -Infinity and NaN are explicit, with the
    IEEE rules for arithmetic and comparison on them; the two zeros are
    one.  The arithmetic on pixel measures ([calcCenter], the offset of
    [dragDropped]) rounds every result to the nearest double, ties to
    even, with gradual underflow and overflow to the infinities, as the
    code's operators do.  The arithmetic on grid indices ([updateRowIndex],
    [updateColIndex], the array keys of [dragDropped]) is on track numbers
    and small integers, where the operators are exact, and is written
    without rounding. *)

From Stdlib Require Import QArith Qreduction Qcanon Lia List.
From stdpp Require Import base option list gmap strings.
Import ListNotations.

(* ===================================================================== *)
(** ** JavaScript numbers *)
(* ===================================================================== *)

Module JsNumber.

Inductive number : Type :=
| Fin (q : Q)
| PInf
| NInf
| NaN.

Definition is_finite (a : number) : bool :=
  match a with Fin _ => true | _ => false end.

(** The infinity (or NaN) whose sign is that of a comparison with zero. *)
Definition inf_signed (c : comparison) : number :=
  match c with Gt => PInf | Lt => NInf | Eq => NaN end.

(** [floor (log2 (n / d))] for positive [n] and [d]. *)
Definition floorLog2 (n d : positive) : Z :=
  let e0 := (Z.log2 (Zpos n) - Z.log2 (Zpos d))%Z in
  let below :=
    if (0 <=? e0)%Z then (Zpos n <? 2 ^ e0 * Zpos d)%Z
    else (Zpos n * 2 ^ (- e0) <? Zpos d)%Z in
  if below then (e0 - 1)%Z else e0.

(** The integer nearest to [num / den], a tie going to the even one. *)
Definition nearestEven (num den : Z) : Z :=
  let qt := (num / den)%Z in
  match (2 * (num mod den) ?= den)%Z with
  | Lt => qt
  | Gt => (qt + 1)%Z
  | Eq => if Z.even qt then qt else (qt + 1)%Z
  end.

(** The double nearest to the magnitude [n / d]: 53 significant bits from
    exponent -1022 up, multiples of 2^-1074 below it, and no double (the
    result overflows) from 2^1024 on. *)
Definition roundMagnitude (n d : positive) : option Q :=
  let e := Z.max (floorLog2 n d) (-1022) in
  let c := (e - 52)%Z in
  if (0 <=? c)%Z then
    let m := nearestEven (Zpos n) (Zpos d * 2 ^ c) in
    if (2 ^ 1024 <=? m * 2 ^ c)%Z then None
    else Some (inject_Z (m * 2 ^ c))
  else
    let m := nearestEven (Zpos n * 2 ^ (- c)) (Zpos d) in
    Some (Qred (Qmake m (Z.to_pos (2 ^ (- c))))).

(** The double an exact result rounds to: what the processor stores for
    a sum, difference, product or quotient of doubles, and what a decimal
    literal such as [0.1] denotes. *)
Definition roundQ (q : Q) : number :=
  let r := Qred q in
  match Qnum r with
  | Z0 => Fin 0
  | Zpos n =>
      match roundMagnitude n (Qden r) with
      | Some v => Fin v
      | None => PInf
      end
  | Zneg n =>
      match roundMagnitude n (Qden r) with
      | Some v => Fin (Qred (- v))
      | None => NInf
      end
  end.
Arguments roundQ : simpl never.

(** [a + b] and [a - b] on grid indices and track numbers: integers far
    below 2^53, where the operators are exact ([index_arithmetic_exact]
    below), and the special values, which they treat as [fadd] and [fsub]
    do. *)
Definition add (a b : number) : number :=
  match a, b with
  | NaN, _ | _, NaN => NaN
  | Fin p, Fin q => Fin (Qred (p + q))
  | PInf, NInf | NInf, PInf => NaN
  | PInf, _ | _, PInf => PInf
  | NInf, _ | _, NInf => NInf
  end.

Definition sub (a b : number) : number :=
  match a, b with
  | NaN, _ | _, NaN => NaN
  | Fin p, Fin q => Fin (Qred (p - q))
  | PInf, PInf | NInf, NInf => NaN
  | PInf, _ | _, NInf => PInf
  | NInf, _ | _, PInf => NInf
  end.

(** [a + b] and [a - b] on pixel measures, rounded as the operators
    round. *)
Definition fadd (a b : number) : number :=
  match a, b with
  | NaN, _ | _, NaN => NaN
  | Fin p, Fin q => roundQ (p + q)
  | PInf, NInf | NInf, PInf => NaN
  | PInf, _ | _, PInf => PInf
  | NInf, _ | _, NInf => NInf
  end.

Definition fsub (a b : number) : number :=
  match a, b with
  | NaN, _ | _, NaN => NaN
  | Fin p, Fin q => roundQ (p - q)
  | PInf, PInf | NInf, NInf => NaN
  | PInf, _ | _, NInf => PInf
  | NInf, _ | _, PInf => NInf
  end.

(** [a * b] and [a / b], rounded. *)
Definition mul (a b : number) : number :=
  match a, b with
  | NaN, _ | _, NaN => NaN
  | Fin p, Fin q => roundQ (p * q)
  | Fin p, PInf | PInf, Fin p => inf_signed (p ?= 0)%Q
  | Fin p, NInf | NInf, Fin p => inf_signed (CompOpp (p ?= 0)%Q)
  | PInf, PInf | NInf, NInf => PInf
  | PInf, NInf | NInf, PInf => NInf
  end.

Definition div (a b : number) : number :=
  match a, b with
  | NaN, _ | _, NaN => NaN
  | Fin p, Fin q =>
      if Qeq_bool q 0 then inf_signed (p ?= 0)%Q else roundQ (p / q)
  | Fin _, (PInf | NInf) => Fin 0
  | PInf, Fin q => match (q ?= 0)%Q with Lt => NInf | _ => PInf end
  | NInf, Fin q => match (q ?= 0)%Q with Lt => PInf | _ => NInf end
  | (PInf | NInf), (PInf | NInf) => NaN
  end.

(** [a <= b], [a < b] and [a === b]: false as soon as one side is NaN. *)
Definition leb (a b : number) : bool :=
  match a, b with
  | NaN, _ | _, NaN => false
  | Fin p, Fin q => Qle_bool p q
  | NInf, _ | _, PInf => true
  | _, _ => false
  end.

Definition ltb (a b : number) : bool :=
  match a, b with
  | NaN, _ | _, NaN => false
  | Fin p, Fin q => negb (Qle_bool q p)
  | PInf, _ | _, NInf => false
  | _, _ => true
  end.

Definition eqb (a b : number) : bool :=
  match a, b with
  | Fin p, Fin q => Qeq_bool p q
  | PInf, PInf | NInf, NInf => true
  | _, _ => false
  end.

Definition le (a b : number) : Prop := leb a b = true.
Definition lt (a b : number) : Prop := ltb a b = true.

(** [Math.min(a, b)] and the variadic [Math.min(...args)]: NaN if an
    argument is NaN, +Infinity when there is no argument. *)
Definition min2 (a b : number) : number :=
  match a, b with
  | NaN, _ | _, NaN => NaN
  | _, _ => if leb a b then a else b
  end.

Definition Math_min (args : list number) : number :=
  fold_right min2 PInf args.

(** An array position or a count as a number. *)
Definition of_nat (n : nat) : number := Fin (inject_Z (Z.of_nat n)).

(** The array slot a number used as a key selects: [a[k]] reads slot [n]
    when [k] is the non-negative integer [n], and is [undefined] for every
    other number (fractions, negatives, infinities, NaN). *)
Definition to_array_index (k : number) : option nat :=
  match k with
  | Fin q =>
      let r := Qred q in
      if (Pos.eqb (Qden r) 1 && Z.leb 0 (Qnum r))%bool
      then Some (Z.to_nat (Qnum r)) else None
  | _ => None
  end.

End JsNumber.

Import JsNumber.

Declare Scope js_scope.
Delimit Scope js_scope with js.
Bind Scope js_scope with number.
Infix "+" := add : js_scope.
Infix "-" := sub : js_scope.
Infix "⊕" := fadd (at level 50, left associativity) : js_scope.
Infix "⊖" := fsub (at level 50, left associativity) : js_scope.
Infix "*" := mul : js_scope.
Infix "/" := div : js_scope.
Infix "<=" := le : js_scope.
Infix "<" := lt : js_scope.

(* ===================================================================== *)
(** ** Data model *)
(* ===================================================================== *)

(** A [number[]] of four entries: every array the component builds or
    caches is [[left, top, right, bottom]]; the intersection library reads
    it as [[lo_x, lo_y, hi_x, hi_y]]. *)
Record coords : Type := Coords { c0 : number; c1 : number; c2 : number; c3 : number }.

(** What [getBoundingClientRect()] returns. *)
Record DOMRect : Type := Rect { left : number; top : number; right : number; bottom : number }.

(** [pos] and the [distance] of a drag-move event. *)
Record point : Type := Point { px : number; py : number }.

(** The [index] field. *)
Record grid_index : Type := GridIndex {
  rowStart : number;
  rowEnd : number;
  columnStart : number;
  columnEnd : number
}.

(** The component.  Besides the fields of the class, the record carries
    the registrations the component holds in its environment: whether the
    [ResizeObserver] has a target, whether the debounced pipe on
    [resized$] is subscribed, whether its debounce timer is running, and
    how many [requestAnimationFrame] callbacks are pending. *)
Record AppComponent : Type := App {
  dragEnded : bool;
  pos : point;
  index : grid_index;
  rows : list string;
  cols : list string;
  readyToAnimation : bool;
  rowsCoordsMap : gmap string coords;
  colsCoordsMap : gmap string coords;
  observing : bool;
  subscribed : bool;
  debouncePending : bool;
  pendingFrames : nat
}.

Definition set_dragEnded (v : bool) (this : AppComponent) : AppComponent :=
  App v (pos this) (index this) (rows this) (cols this) (readyToAnimation this)
      (rowsCoordsMap this) (colsCoordsMap this)
      (observing this) (subscribed this) (debouncePending this) (pendingFrames this).

Definition set_pos (v : point) (this : AppComponent) : AppComponent :=
  App (dragEnded this) v (index this) (rows this) (cols this) (readyToAnimation this)
      (rowsCoordsMap this) (colsCoordsMap this)
      (observing this) (subscribed this) (debouncePending this) (pendingFrames this).

Definition set_index (v : grid_index) (this : AppComponent) : AppComponent :=
  App (dragEnded this) (pos this) v (rows this) (cols this) (readyToAnimation this)
      (rowsCoordsMap this) (colsCoordsMap this)
      (observing this) (subscribed this) (debouncePending this) (pendingFrames this).

Definition set_readyToAnimation (v : bool) (this : AppComponent) : AppComponent :=
  App (dragEnded this) (pos this) (index this) (rows this) (cols this) v
      (rowsCoordsMap this) (colsCoordsMap this)
      (observing this) (subscribed this) (debouncePending this) (pendingFrames this).

Definition set_rowsCoordsMap (v : gmap string coords) (this : AppComponent) : AppComponent :=
  App (dragEnded this) (pos this) (index this) (rows this) (cols this) (readyToAnimation this)
      v (colsCoordsMap this)
      (observing this) (subscribed this) (debouncePending this) (pendingFrames this).

Definition set_colsCoordsMap (v : gmap string coords) (this : AppComponent) : AppComponent :=
  App (dragEnded this) (pos this) (index this) (rows this) (cols this) (readyToAnimation this)
      (rowsCoordsMap this) v
      (observing this) (subscribed this) (debouncePending this) (pendingFrames this).

Definition set_observing (v : bool) (this : AppComponent) : AppComponent :=
  App (dragEnded this) (pos this) (index this) (rows this) (cols this) (readyToAnimation this)
      (rowsCoordsMap this) (colsCoordsMap this)
      v (subscribed this) (debouncePending this) (pendingFrames this).

Definition set_subscribed (v : bool) (this : AppComponent) : AppComponent :=
  App (dragEnded this) (pos this) (index this) (rows this) (cols this) (readyToAnimation this)
      (rowsCoordsMap this) (colsCoordsMap this)
      (observing this) v (debouncePending this) (pendingFrames this).

Definition set_debouncePending (v : bool) (this : AppComponent) : AppComponent :=
  App (dragEnded this) (pos this) (index this) (rows this) (cols this) (readyToAnimation this)
      (rowsCoordsMap this) (colsCoordsMap this)
      (observing this) (subscribed this) v (pendingFrames this).

Definition set_pendingFrames (v : nat) (this : AppComponent) : AppComponent :=
  App (dragEnded this) (pos this) (index this) (rows this) (cols this) (readyToAnimation this)
      (rowsCoordsMap this) (colsCoordsMap this)
      (observing this) (subscribed this) (debouncePending this) v.

(** The field initialisers of the class; the track identifiers are the
    [maxRowIndex] and [maxColIndex] strings [uuid.v4()] produced. *)
Definition maxRowIndex : nat := 30.
Definition maxColIndex : nat := 6.

Definition new_AppComponent (rowIds colIds : list string) : AppComponent :=
  {| dragEnded := false;
     pos := Point (Fin 0) (Fin 0);
     index := GridIndex (of_nat 1) (of_nat 3) (of_nat 1) (of_nat 1);
     rows := rowIds;
     cols := colIds;
     readyToAnimation := false;
     rowsCoordsMap := ∅;
     colsCoordsMap := ∅;
     observing := false;
     subscribed := false;
     debouncePending := false;
     pendingFrames := 0 |}.

(* ===================================================================== *)
(** ** Completions: a method returns or throws, and keeps its writes *)
(* ===================================================================== *)

Inductive error : Type := TypeError.

Inductive completion (A : Type) : Type :=
| Normal (a : A)
| Throw (e : error).
Arguments Normal {A} a.
Arguments Throw {A} e.

Definition M (A : Type) : Type := AppComponent -> completion A * AppComponent.

Definition ret {A} (a : A) : M A := fun this => (Normal a, this).
Definition bind {A B} (m : M A) (k : A -> M B) : M B :=
  fun this =>
    match m this with
    | (Normal a, this') => k a this'
    | (Throw e, this') => (Throw e, this')
    end.
Definition get : M AppComponent := fun this => (Normal this, this).
Definition modify (f : AppComponent -> AppComponent) : M unit :=
  fun this => (Normal tt, f this).
Definition lift {A} (c : completion A) : M A := fun this => (c, this).

Notation "'let*' x ':=' m 'in' k" := (bind m (fun x => k))
  (at level 10, x pattern, m at level 100, k at level 200).

(* ===================================================================== *)
(** ** The box-intersect library *)
(* ===================================================================== *)

(** [boxIntersect] is the function of the npm package box-intersect,
    which the repository imports and does not contain.  The resolution
    needs from it the index pairs [[i, j]] of the boxes of the list that
    overlap, where a box is [[lo_x, lo_y, hi_x, hi_y]]. *)

(** Modelled from the spec: box-intersect skips a box with [lo <= hi]
    false on an axis, so also every box with a NaN. *)
Definition boxEmpty (b : coords) : bool :=
  negb (leb (c0 b) (c2 b)) || negb (leb (c1 b) (c3 b)).

(** Modelled from the spec: box-intersect takes boxes as closed; a
    degenerate probe box overlaps the track that holds its point, and a
    probe on the boundary of two tracks overlaps both. *)
Definition boxOverlap (a b : coords) : bool :=
  leb (c0 a) (c2 b) && leb (c0 b) (c2 a) &&
  leb (c1 a) (c3 b) && leb (c1 b) (c3 a).

(** Modelled from the spec: the pair test of box-intersect. *)
Definition boxMeet (a b : coords) : bool :=
  negb (boxEmpty a) && negb (boxEmpty b) && boxOverlap a b.

(** Modelled from the spec: the pairs box-intersect reports for box [i]
    and the boxes that follow it, numbered from [j]. *)
Fixpoint pairsWith (i : nat) (a : coords) (j : nat) (rest : list coords)
  : list (list nat) :=
  match rest with
  | [] => []
  | b :: rest' =>
      if boxMeet a b then [i; j] :: pairsWith i a (S j) rest'
      else pairsWith i a (S j) rest'
  end.

(** Modelled from the spec: every overlapping pair of positions of the
    list, as box-intersect reports them. *)
Fixpoint intersectFull (i : nat) (boxes : list coords) : list (list nat) :=
  match boxes with
  | [] => []
  | a :: rest => pairsWith i a (S i) rest ++ intersectFull (S i) rest
  end.

(** Modelled from the spec: box-intersect reads every entry of the list;
    [None] stands for an entry that is [undefined]. *)
Fixpoint definedBoxes (boxes : list (option coords)) : option (list coords) :=
  match boxes with
  | [] => Some []
  | None :: _ => None
  | Some b :: rest =>
      match definedBoxes rest with
      | Some bs => Some (b :: bs)
      | None => None
      end
  end.

(** Modelled from the spec: [boxIntersect(boxes)] of box-intersect, which
    is not in the repository; reading an [undefined] entry is a
    TypeError. *)
Definition boxIntersect (boxes : list (option coords)) : completion (list (list nat)) :=
  match definedBoxes boxes with
  | Some bs => Normal (intersectFull 0 bs)
  | None => Throw TypeError
  end.

(* ===================================================================== *)
(** ** The methods of [AppComponent] *)
(* ===================================================================== *)

(** [animationLoop]: reschedules itself, then consumes the flag. *)
Definition animationLoop : M unit :=
  let* _ := modify (fun this => set_pendingFrames (S (pendingFrames this)) this) in
  let* this := get in
  if negb (readyToAnimation this) then ret tt
  else
    let* _ := modify (set_dragEnded true) in
    modify (set_readyToAnimation false).

(** [dragStarted] ([drag.reset()] touches only the gesture's own state). *)
Definition dragStarted : M unit :=
  let* _ := modify (set_pos (Point (Fin 0) (Fin 0))) in
  modify (set_dragEnded false).

Definition dragMoved (distance : point) : M unit :=
  modify (set_pos distance).

Record centered : Type := Centered {
  ctr_left : number;
  ctr_top : number;
  center : coords
}.

Definition half : number := Fin (1 # 2).

Definition calcCenter (el : DOMRect) (this : AppComponent) : centered :=
  let rowSpan := (rowEnd (index this) ⊖ rowStart (index this))%js in
  let horizontalCenter := ((left el ⊕ right el) * half ⊕ px (pos this))%js in
  let verticalCenter :=
    ((bottom el ⊖ top el) / rowSpan * half ⊕ top el ⊕ py (pos this))%js in
  {| ctr_left := left el;
     ctr_top := top el;
     center := Coords horizontalCenter verticalCenter
                      horizontalCenter verticalCenter |}.

Definition zeroCoords : coords := Coords (Fin 0) (Fin 0) (Fin 0) (Fin 0).

(** An id the map does not hold gives an [undefined] entry. *)
Definition createCoordsArray (idArray : list string) (coordsMap : gmap string coords)
  : list (option coords) :=
  [Some zeroCoords] ++ map (fun id => coordsMap !! id) idArray.

Definition hasZero (x : list nat) : bool :=
  match List.find (fun y => Nat.eqb y 0) x with
  | Some _ => true
  | None => false
  end.

Definition intersectArrayIndex (coordsArray : list (option coords)) : completion number :=
  match boxIntersect coordsArray with
  | Throw e => Throw e
  | Normal pairs =>
      Normal (Math_min (map of_nat
        (List.filter (fun x => negb (Nat.eqb x 0))
          (fold_left (fun acc x => acc ++ x)
            (List.filter hasZero pairs) []))))
  end.

(** [updateCoordsMap]: [document.querySelector] finds the element of an
    id in the layout or returns [null], whose method call is a TypeError;
    the entries written before the fault stay written. *)
Fixpoint updateCoordsMap (layout : string -> option DOMRect)
    (idArray : list string) (coordsMap : gmap string coords)
  : completion unit * gmap string coords :=
  match idArray with
  | [] => (Normal tt, coordsMap)
  | id :: rest =>
      match layout id with
      | None => (Throw TypeError, coordsMap)
      | Some r =>
          updateCoordsMap layout rest
            (<[id := Coords (left r) (top r) (right r) (bottom r)]> coordsMap)
      end
  end.

Definition calcRowsAxisCoords (layout : string -> option DOMRect) : M unit :=
  fun this =>
    let (c, m) := updateCoordsMap layout (rows this) (rowsCoordsMap this) in
    (c, set_rowsCoordsMap m this).

Definition calcColsAxisCoords (layout : string -> option DOMRect) : M unit :=
  fun this =>
    let (c, m) := updateCoordsMap layout (cols this) (colsCoordsMap this) in
    (c, set_colsCoordsMap m this).

Definition calcAxisCoords (layout : string -> option DOMRect) : M unit :=
  let* _ := calcRowsAxisCoords layout in
  calcColsAxisCoords layout.

Definition updateRowIndex (rowsAxisCoords : list (option coords)) : M number :=
  let* nextRowStartIndex := lift (intersectArrayIndex rowsAxisCoords) in
  let* _ := modify (fun this =>
    let i := index this in
    set_index (GridIndex (rowStart i)
                         (rowEnd i + (nextRowStartIndex - rowStart i))%js
                         (columnStart i) (columnEnd i)) this) in
  let* _ := modify (fun this =>
    let i := index this in
    set_index (GridIndex nextRowStartIndex (rowEnd i)
                         (columnStart i) (columnEnd i)) this) in
  ret nextRowStartIndex.

Definition updateColIndex (colsAxisCoords : list (option coords)) : M number :=
  let* nextColStartIndex := lift (intersectArrayIndex colsAxisCoords) in
  let* _ := modify (fun this =>
    let i := index this in
    set_index (GridIndex (rowStart i) (rowEnd i) (columnStart i)
                         (columnEnd i + (nextColStartIndex - columnStart i))%js) this) in
  let* _ := modify (fun this =>
    let i := index this in
    set_index (GridIndex (rowStart i) (rowEnd i)
                         nextColStartIndex (columnEnd i)) this) in
  ret nextColStartIndex.

Definition updateIndices (centerCoords : coords) : M (number * number) :=
  let* this := get in
  let rowsAxisCoords := createCoordsArray (rows this) (rowsCoordsMap this) in
  let colsAxisCoords := createCoordsArray (cols this) (colsCoordsMap this) in
  let rowsAxisCoords := <[0 := Some centerCoords]> rowsAxisCoords in
  let colsAxisCoords := <[0 := Some centerCoords]> colsAxisCoords in
  let* row := updateRowIndex rowsAxisCoords in
  let* col := updateColIndex colsAxisCoords in
  ret (row, col).

(** [coordsMap.get(ids[k])[n]]: an index outside the array gives
    [undefined], the map has no entry for [undefined], and indexing
    [undefined] is a TypeError. *)
Definition cachedCoord (ids : list string) (coordsMap : gmap string coords)
    (k : number) (entry : coords -> number) : completion number :=
  match to_array_index k with
  | None => Throw TypeError
  | Some n =>
      match ids !! n with
      | None => Throw TypeError
      | Some id =>
          match coordsMap !! id with
          | None => Throw TypeError
          | Some c => Normal (entry c)
          end
      end
  end.

(** [dragDropped]; [el] is the bounding box of the dragged element, read
    after [drag.reset()]. *)
Definition dragDropped (el : DOMRect) : M unit :=
  let* this := get in
  let ctr := calcCenter el this in
  let* rc := updateIndices (center ctr) in
  let row := fst rc in
  let col := snd rc in
  let* this := get in
  let* destCoordX :=
    lift (cachedCoord (cols this) (colsCoordsMap this) (col - of_nat 1)%js c0) in
  let* destCoordY :=
    lift (cachedCoord (rows this) (rowsCoordsMap this) (row - of_nat 1)%js c1) in
  let* _ := modify (fun this =>
    set_pos (Point (ctr_left ctr ⊕ px (pos this) ⊖ destCoordX)%js
                   (ctr_top ctr ⊕ py (pos this) ⊖ destCoordY)%js) this) in
  modify (set_readyToAnimation true).

(** [ngAfterViewInit].  [container] is what
    [document.querySelector('.container')] finds; [observe] throws a
    TypeError when handed [null]. *)
Definition ngAfterViewInit (container : option DOMRect)
    (layout : string -> option DOMRect) : M unit :=
  let* _ := match container with
            | Some _ => modify (set_observing true)
            | None => lift (Throw TypeError)
            end in
  let* _ := calcAxisCoords layout in
  let* _ := modify (set_subscribed true) in
  animationLoop.

(** [ngOnDestroy]: [this.resizeObserver.disconnect()] and nothing else. *)
Definition ngOnDestroy : M unit :=
  modify (set_observing false).

(* ===================================================================== *)
(** ** The environment's callbacks *)
(* ===================================================================== *)

(** Modelled from the spec: [requestAnimationFrame] is the browser's; a
    registered callback runs once, at the next frame.  The callback is
    [() => this.animationLoop()]. *)
Definition frameTick : M unit :=
  let* this := get in
  match pendingFrames this with
  | O => ret tt
  | S n =>
      let* _ := modify (set_pendingFrames n) in
      animationLoop
  end.

(** Modelled from the spec: the [ResizeObserver] and the rxjs subject
    and [debounceTime] are not in the repository.  The observer reports a
    resize only while it has a target; its callback is
    [entries => this.resized$.next(entries)], and the subject hands the
    value to the debounced pipe, which restarts its timer. *)
Definition resizeNotified : M unit :=
  let* this := get in
  if observing this && subscribed this
  then modify (set_debouncePending true)
  else ret tt.

(** Modelled from the spec: when the timer of [debounceTime(500)]
    elapses the subscriber runs: [_ => this.calcColsAxisCoords()]. *)
Definition debounceElapsed (layout : string -> option DOMRect) : M unit :=
  let* this := get in
  if debouncePending this
  then
    let* _ := modify (set_debouncePending false) in
    calcColsAxisCoords layout
  else ret tt.

(* ===================================================================== *)
(** ** Vocabulary of the statements *)
(* ===================================================================== *)

(** The positions, counted from [j], of the track boxes that meet the
    probe: what the resolution takes the minimum of. *)
Fixpoint overlapping (probe : coords) (j : nat) (tracks : list coords) : list nat :=
  match tracks with
  | [] => []
  | b :: rest =>
      if boxMeet probe b then j :: overlapping probe (S j) rest
      else overlapping probe (S j) rest
  end.

(** The degenerate probe box of a point. *)
Definition probeAt (x y : number) : coords := Coords x y x y.

(** The cache holds, for the identifiers of the sequence in order, the
    boxes [tracks]: no identifier is missing. *)
Definition cachedBoxes (ids : list string) (coordsMap : gmap string coords)
    (tracks : list coords) : Prop :=
  map (fun id => coordsMap !! id) ids = map Some tracks.

(** Tracks laid out top to bottom without overlap: each one ends where, or
    before, every later one starts. *)
Fixpoint topToBottom (tracks : list coords) : bool :=
  match tracks with
  | [] => true
  | b :: rest =>
      forallb (fun b' => leb (c3 b) (c1 b')) rest && topToBottom rest
  end.

(** A resolved index: the 1-based number of a track of the sequence. *)
Definition validIndex (n : nat) (v : number) : Prop :=
  exists k, v = of_nat k /\ 1 <= k <= n.

(* ===================================================================== *)
(** ** A small grid to run the component on

    Three row tracks with vertical ranges [0,10], [10,20], [20,30] and two
    column tracks with horizontal ranges [0,5], [5,15]; every track spans
    the whole grid on its other axis. *)
(* ===================================================================== *)

Definition pixels (z : Z) : number := Fin (inject_Z z).

Definition gridRows : list string := ["rowid_a"; "rowid_b"; "rowid_c"]%string.
Definition gridCols : list string := ["colid_a"; "colid_b"]%string.

Definition gridRowBoxes : list coords :=
  [ Coords (pixels 0) (pixels 0) (pixels 15) (pixels 10);
    Coords (pixels 0) (pixels 10) (pixels 15) (pixels 20);
    Coords (pixels 0) (pixels 20) (pixels 15) (pixels 30) ].

Definition gridColBoxes : list coords :=
  [ Coords (pixels 0) (pixels 0) (pixels 5) (pixels 30);
    Coords (pixels 5) (pixels 0) (pixels 15) (pixels 30) ].

Definition rectOf (b : coords) : DOMRect := Rect (c0 b) (c1 b) (c2 b) (c3 b).

Fixpoint layoutOf (ids : list string) (boxes : list coords) (id : string)
  : option DOMRect :=
  match ids, boxes with
  | i :: ids', b :: boxes' =>
      if String.eqb i id then Some (rectOf b) else layoutOf ids' boxes' id
  | _, _ => None
  end.

Definition gridLayout (id : string) : option DOMRect :=
  layoutOf (gridRows ++ gridCols) (gridRowBoxes ++ gridColBoxes) id.

(** The element of class [container]. *)
Definition gridContainer : DOMRect :=
  Rect (pixels 0) (pixels 0) (pixels 15) (pixels 30).

(** The component after [ngAfterViewInit] on that layout. *)
Definition gridApp : AppComponent :=
  snd (ngAfterViewInit (Some gridContainer) gridLayout
         (new_AppComponent gridRows gridCols)).

(** The dragged element: rows 1 to 3 (two tracks high), column 1. *)
Definition gridElement : DOMRect :=
  Rect (pixels 0) (pixels 0) (pixels 5) (pixels 20).

(* ===================================================================== *)
(** ** Names for the steps of a drop *)
(* ===================================================================== *)

(** The two arrays [updateIndices] hands to the resolution. *)
Definition rowsArray (centerCoords : coords) (this : AppComponent) :=
  <[0 := Some centerCoords]> (createCoordsArray (rows this) (rowsCoordsMap this)).

Definition colsArray (centerCoords : coords) (this : AppComponent) :=
  <[0 := Some centerCoords]> (createCoordsArray (cols this) (colsCoordsMap this)).

(** The index after [updateRowIndex], [updateColIndex] resolved to [v]. *)
Definition withRow (v : number) (this : AppComponent) : AppComponent :=
  set_index (GridIndex v
                       (rowEnd (index this) + (v - rowStart (index this)))%js
                       (columnStart (index this)) (columnEnd (index this))) this.

Definition withCol (v : number) (this : AppComponent) : AppComponent :=
  set_index (GridIndex (rowStart (index this)) (rowEnd (index this)) v
                       (columnEnd (index this) + (v - columnStart (index this)))%js) this.

(** The last two writes of [dragDropped]. *)
Definition settle (ctr : centered) (destCoordX destCoordY : number)
    (this : AppComponent) : AppComponent :=
  set_readyToAnimation true
    (set_pos (Point (ctr_left ctr ⊕ px (pos this) ⊖ destCoordX)%js
                    (ctr_top ctr ⊕ py (pos this) ⊖ destCoordY)%js) this).

(** A box of four finite numbers, as [getBoundingClientRect] gives. *)
Definition finiteCoords (b : coords) : bool :=
  is_finite (c0 b) && is_finite (c1 b) && is_finite (c2 b) && is_finite (c3 b).

(** [lo <= v <= hi]. *)
Definition within (lo hi v : number) : bool := leb lo v && leb v hi.

(** All four fields of the index inside the grid: rows within [1, N],
    columns within [1, M]. *)
Definition indexWithinGrid (this : AppComponent) : bool :=
  let n := of_nat (length (rows this)) in
  let m := of_nat (length (cols this)) in
  within (of_nat 1) n (rowStart (index this)) &&
  within (of_nat 1) n (rowEnd (index this)) &&
  within (of_nat 1) m (columnStart (index this)) &&
  within (of_nat 1) m (columnEnd (index this)).

(** The grid with the element dragged by (4.5, 7): its centre, for a row
    span of 2, is then (7, 12). *)
Definition gridDragged : AppComponent :=
  snd (dragMoved (Point (Fin (9 # 2)) (pixels 7)) gridApp).

(** The same drag carried far below the grid. *)
Definition gridDraggedBelow : AppComponent :=
  snd (dragMoved (Point (Fin (9 # 2)) (pixels 100)) gridApp).

(** The container shrinks: the columns now measure [0,2] and [2,6]; the
    debounced handler re-measures the columns and leaves the rows. *)
Definition gridNarrowColBoxes : list coords :=
  [ Coords (pixels 0) (pixels 0) (pixels 2) (pixels 30);
    Coords (pixels 2) (pixels 0) (pixels 6) (pixels 30) ].

Definition gridNarrowLayout (id : string) : option DOMRect :=
  layoutOf (gridRows ++ gridCols) (gridRowBoxes ++ gridNarrowColBoxes) id.

Definition gridResized : AppComponent :=
  snd (debounceElapsed gridNarrowLayout (snd (resizeNotified gridApp))).

Definition gridResizedDragged : AppComponent :=
  snd (dragMoved (Point (Fin (9 # 2)) (pixels 7)) gridResized).



(** The example grid with the columns measured in a narrower container
    and a drag by (4.5, 7): the centre (7, 12) is inside row 2 and right
    of every column. *)
Definition gridOutsideColumns : AppComponent :=
  snd (dragMoved (Point (Fin (9 # 2)) (pixels 7))
         (snd (calcColsAxisCoords
                 (layoutOf (gridRows ++ gridCols)
                    (gridRowBoxes ++
                     [ Coords (pixels 0) (pixels 0) (pixels 2) (pixels 30);
                       Coords (pixels 2) (pixels 0) (pixels 6) (pixels 30) ]))
                 gridApp))).

(** Measures that are not whole pixels: row tracks [0,5.1] and [5.1,20],
    and a drag by (4.5, 0.1); the literals are the doubles nearest to
    them. *)
Definition fractionRowBoxes : list coords :=
  [ Coords (pixels 0) (pixels 0) (pixels 15) (roundQ (51 # 10));
    Coords (pixels 0) (roundQ (51 # 10)) (pixels 15) (pixels 20) ].

Definition fractionRows : list string := ["rowid_a"; "rowid_b"]%string.

Definition fractionApp : AppComponent :=
  snd (dragMoved (Point (Fin (9 # 2)) (roundQ (1 # 10)))
         (snd (ngAfterViewInit (Some gridContainer)
                 (layoutOf (fractionRows ++ gridCols)
                    (fractionRowBoxes ++ gridColBoxes))
                 (new_AppComponent fractionRows gridCols)))).

(** The dragged grid with an index of row span zero. *)
Definition gridZeroSpan : AppComponent :=
  set_index (GridIndex (of_nat 2) (of_nat 2) (of_nat 1) (of_nat 1)) gridDragged.

(** The dragged grid with an index whose end is before its start. *)
Definition gridNegativeSpan : AppComponent :=
  set_index (GridIndex (of_nat 3) (of_nat 1) (of_nat 1) (of_nat 1)) gridDragged.

(** [n] frames in a row. *)
Fixpoint frames (n : nat) (this : AppComponent) : AppComponent :=
  match n with
  | O => this
  | S n' => frames n' (snd (frameTick this))
  end.

(** The example grid right after its drop, and the example grid with a
    resize just reported. *)
Definition gridDropped : AppComponent := snd (dragDropped gridElement gridDragged).
Definition gridResizing : AppComponent := snd (resizeNotified gridApp).

(* ===================================================================== *)
(** ** Vocabulary for the cache refresh, the lifecycle and whole gestures *)
(* ===================================================================== *)

(** The array [updateCoordsMap] stores for a measured rectangle. *)
Definition coordsOf (r : DOMRect) : coords :=
  Coords (left r) (top r) (right r) (bottom r).

(** Every identifier of the sequence has an element in the layout. *)
Definition allPresent (layout : string -> option DOMRect) (ids : list string) : bool :=
  forallb (fun id => match layout id with Some _ => true | None => false end) ids.

(** Column tracks laid out left to right without overlap. *)
Fixpoint leftToRight (tracks : list coords) : bool :=
  match tracks with
  | [] => true
  | b :: rest =>
      forallb (fun b' => leb (c2 b) (c0 b')) rest && leftToRight rest
  end.

(** The point lies strictly inside the box. *)
Definition strictlyInside (p : coords) (b : coords) : bool :=
  ltb (c0 b) (c0 p) && ltb (c0 p) (c2 b) &&
  ltb (c1 b) (c1 p) && ltb (c1 p) (c3 b).

(** The row span of the index. *)
Definition rowSpan (this : AppComponent) : number :=
  (rowEnd (index this) - rowStart (index this))%js.

Definition colSpan (this : AppComponent) : number :=
  (columnEnd (index this) - columnStart (index this))%js.

(** One whole gesture: start, a move to [distance], and the drop of the
    element measured as [el]. *)
Definition gesture (distance : point) (el : DOMRect) : M unit :=
  let* _ := dragStarted in
  let* _ := dragMoved distance in
  dragDropped el.

(** A series of gestures, stopped by the first one that faults. *)
Fixpoint gestures (gs : list (point * DOMRect)) : M unit :=
  match gs with
  | [] => ret tt
  | g :: rest =>
      let* _ := gesture (fst g) (snd g) in
      gestures rest
  end.

(** A gesture with the frame loop running through it: [a] frames pass
    after the start and [b] frames after the move. *)
Definition gestureWithFrames (a b : nat) (distance : point) (el : DOMRect)
  : M unit :=
  let* _ := dragStarted in
  let* _ := modify (frames a) in
  let* _ := dragMoved distance in
  let* _ := modify (frames b) in
  dragDropped el.

(** A layout in which the second row of the example grid has no element. *)
Definition gridBrokenLayout (id : string) : option DOMRect :=
  if String.eqb id "rowid_b" then None else gridLayout id.

(** The gesture of the example: a move by (4.5, 7), then the drop; and
    one that ends far below the grid. *)
Definition gridGesture : point * DOMRect :=
  (Point (Fin (9 # 2)) (pixels 7), gridElement).

Definition gridGestureBelow : point * DOMRect :=
  (Point (Fin (9 # 2)) (pixels 100), gridElement).

(* ===================================================================== *)
(** ** Facts about numbers *)
(* ===================================================================== *)

Section NumberOrder.

Local Open Scope Q_scope.

Lemma Qle_bool_false_lt (p q : Q) : negb (Qle_bool q p) = true <-> p < q.
Proof.
  rewrite negb_true_iff. split.
  - intros H. apply Qnot_le_lt. intros Hle.
    apply Qle_bool_iff in Hle. congruence.
  - intros H. destruct (Qle_bool q p) eqn:E; [| reflexivity].
    apply Qle_bool_iff in E. exfalso. exact (Qlt_not_le _ _ H E).
Qed.

Lemma le_lt_trans (a b c : number) : (a <= b)%js -> (b < c)%js -> (a < c)%js.
Proof.
  unfold JsNumber.le, JsNumber.lt.
  destruct a as [p| | |], b as [q| | |], c as [r| | |]; simpl;
    try discriminate; try reflexivity.
  intros H1 H2. apply Qle_bool_iff in H1. apply Qle_bool_false_lt in H2.
  apply Qle_bool_false_lt. eapply Qle_lt_trans; eassumption.
Qed.


Lemma le_trans (a b c : number) : (a <= b)%js -> (b <= c)%js -> (a <= c)%js.
Proof.
  unfold JsNumber.le.
  destruct a as [p| | |], b as [q| | |], c as [r| | |]; simpl;
    try discriminate; try reflexivity.
  intros H1 H2. apply Qle_bool_iff in H1, H2. apply Qle_bool_iff.
  eapply Qle_trans; eassumption.
Qed.

Lemma lt_not_le (a b : number) : (a < b)%js -> leb b a = false.
Proof.
  unfold JsNumber.lt.
  destruct a as [p| | |], b as [q| | |]; simpl; try discriminate; try reflexivity.
  intros H. apply negb_true_iff in H. exact H.
Qed.

Lemma lt_le (a b : number) : (a < b)%js -> (a <= b)%js.
Proof.
  unfold JsNumber.le, JsNumber.lt.
  destruct a as [p| | |], b as [q| | |]; simpl; try discriminate; try reflexivity.
  intros H. apply Qle_bool_false_lt in H. apply Qle_bool_iff.
  apply Qlt_le_weak. exact H.
Qed.

(** A number that takes part in a true comparison is not NaN, so it is
    below or equal to itself. *)
Lemma le_self_l (a b : number) : (a <= b)%js -> (a <= a)%js.
Proof.
  unfold JsNumber.le. destruct a as [p| | |], b as [q| | |]; simpl;
    try discriminate; try reflexivity.
  all: intros _; apply Qle_bool_iff, Qle_refl.
Qed.


Lemma le_ne_lt (a b : number) : (a <= b)%js -> eqb b a = false -> (a < b)%js.
Proof.
  unfold JsNumber.le, JsNumber.lt.
  destruct a as [p | | |], b as [q | | |]; simpl; try discriminate; try reflexivity.
  intros Hle Hne. apply Qle_bool_iff in Hle. apply Qle_bool_false_lt.
  destruct (Qle_lt_or_eq _ _ Hle) as [Hlt | Heq]; [exact Hlt |].
  assert (Qeq_bool q p = true) by (apply Qeq_bool_iff; symmetry; exact Heq).
  congruence.
Qed.

Lemma leb_of_nat (a b : nat) : leb (of_nat a) (of_nat b) = Nat.leb a b.
Proof.
  unfold of_nat. simpl.
  destruct (Nat.leb a b) eqn:E.
  - apply Nat.leb_le in E. apply Qle_bool_iff. rewrite <- Zle_Qle. lia.
  - apply Nat.leb_gt in E.
    destruct (Qle_bool _ _) eqn:F; [| reflexivity].
    apply Qle_bool_iff in F. rewrite <- Zle_Qle in F. lia.
Qed.

Lemma min2_of_nat (a b : nat) : min2 (of_nat a) (of_nat b) = of_nat (Nat.min a b).
Proof.
  change (min2 (of_nat a) (of_nat b))
    with (if leb (of_nat a) (of_nat b) then of_nat a else of_nat b).
  rewrite leb_of_nat. destruct (Nat.leb a b) eqn:E.
  - apply Nat.leb_le in E. rewrite Nat.min_l by exact E. reflexivity.
  - apply Nat.leb_gt in E. rewrite Nat.min_r by lia. reflexivity.
Qed.

End NumberOrder.


(* ===================================================================== *)
(** ** Rounding and the arithmetic on indices *)
(* ===================================================================== *)

Section Exactness.

Local Open Scope Z_scope.

Lemma nearestEven_1 (z : Z) : nearestEven z 1 = z.
Proof.
  unfold nearestEven. rewrite Z.mod_1_r, Z.div_1_r. reflexivity.
Qed.

Lemma floorLog2_integer (p : positive) : floorLog2 p 1 = Z.log2 (Zpos p).
Proof.
  unfold floorLog2. change (Z.log2 1) with 0. rewrite Z.sub_0_r.
  pose proof (Z.log2_nonneg (Zpos p)) as Hn.
  destruct (Z.leb_spec 0 (Z.log2 (Zpos p))) as [_ | Hlt]; [| lia].
  pose proof (Z.log2_spec (Zpos p) (Pos2Z.is_pos p)) as [Hlo _].
  destruct (Z.ltb_spec (Zpos p) (2 ^ Z.log2 (Zpos p) * 1)) as [Hb | _]; [lia |].
  reflexivity.
Qed.

Lemma roundMagnitude_integer (p : positive) :
  Zpos p < 2 ^ 53 -> roundMagnitude p 1 = Some (inject_Z (Zpos p)).
Proof.
  intros Hp. unfold roundMagnitude. rewrite floorLog2_integer.
  pose proof (Z.log2_nonneg (Zpos p)) as Hn.
  assert (Hl : Z.log2 (Zpos p) < 53).
  { apply Z.log2_lt_pow2; [lia | exact Hp]. }
  rewrite Z.max_l by lia.
  destruct (Z.leb_spec 0 (Z.log2 (Zpos p) - 52)) as [Hc | Hc].
  - assert (E : Z.log2 (Zpos p) - 52 = 0) by lia. rewrite E.
    change (2 ^ 0) with 1. rewrite !Z.mul_1_r, nearestEven_1.
    destruct (Z.leb_spec (2 ^ 1024) (Zpos p)) as [Hover | _]; [| reflexivity].
    assert (2 ^ 53 < 2 ^ 1024) by (apply Z.pow_lt_mono_r; lia). lia.
  - rewrite nearestEven_1. f_equal.
    set (k := - (Z.log2 (Zpos p) - 52)).
    assert (Hk : 0 < 2 ^ k) by (apply Z.pow_pos_nonneg; lia).
    rewrite <- (Qred_identity (inject_Z (Zpos p))) by apply Z.gcd_1_r.
    apply Qred_complete. unfold Qeq. simpl Qnum. simpl Qden.
    rewrite Z2Pos.id by exact Hk. lia.
Qed.

(** The doubles hold every integer of magnitude below 2^53: rounding
    leaves it as it is. *)
Lemma roundQ_integer (n : Z) :
  Z.abs n < 2 ^ 53 -> roundQ (inject_Z n) = Fin (inject_Z n).
Proof.
  intros Hn. unfold roundQ.
  rewrite (Qred_identity (inject_Z n)) by apply Z.gcd_1_r.
  destruct n as [| p | p]; unfold inject_Z at 1 2; cbn [Qnum Qden].
  - reflexivity.
  - rewrite roundMagnitude_integer by (simpl in Hn; exact Hn). reflexivity.
  - rewrite roundMagnitude_integer by (simpl in Hn; exact Hn).
    f_equal. change (- inject_Z (Z.pos p))%Q with (inject_Z (Z.neg p)).
    apply Qred_identity, Z.gcd_1_r.
Qed.

End Exactness.

Lemma roundQ_Qeq (p q : Q) : (p == q)%Q -> roundQ p = roundQ q.
Proof. intros H. unfold roundQ. rewrite (Qred_complete p q H). reflexivity. Qed.

(** On integers that stay below 2^53 in magnitude, as grid indices and
    track numbers do, the rounded sum and difference are the exact ones. *)
Lemma index_arithmetic_exact (a b : Z) :
  (Z.abs a < 2 ^ 53)%Z -> (Z.abs b < 2 ^ 53)%Z ->
  ((Z.abs (a + b) < 2 ^ 53)%Z ->
   (Fin (inject_Z a) ⊕ Fin (inject_Z b))%js = (Fin (inject_Z a) + Fin (inject_Z b))%js) /\
  ((Z.abs (a - b) < 2 ^ 53)%Z ->
   (Fin (inject_Z a) ⊖ Fin (inject_Z b))%js = (Fin (inject_Z a) - Fin (inject_Z b))%js).
Proof.
  intros Ha Hb. split; intros Hab; simpl.
  - rewrite (roundQ_Qeq (inject_Z a + inject_Z b) (inject_Z (a + b))).
    + rewrite roundQ_integer by exact Hab.
      f_equal. rewrite <- (Qred_identity (inject_Z (a + b))) by apply Z.gcd_1_r.
      apply Qred_complete. rewrite inject_Z_plus. reflexivity.
    + rewrite inject_Z_plus. reflexivity.
  - rewrite (roundQ_Qeq (inject_Z a - inject_Z b) (inject_Z (a - b))).
    + rewrite roundQ_integer by exact Hab.
      f_equal. rewrite <- (Qred_identity (inject_Z (a - b))) by apply Z.gcd_1_r.
      apply Qred_complete. unfold Z.sub. rewrite inject_Z_plus, inject_Z_opp. reflexivity.
    + unfold Z.sub. rewrite inject_Z_plus, inject_Z_opp. reflexivity.
Qed.

(** [Math.min] over a non-empty list of positions is its least element. *)
Lemma Math_min_positions (l : list nat) :
  l <> [] ->
  exists m, In m l /\ (forall j, In j l -> m <= j) /\
            Math_min (map of_nat l) = of_nat m.
Proof.
  induction l as [| a r IH]; [congruence |]. intros _.
  destruct r as [| b r'].
  - exists a. simpl. split; [auto |]. split; [| reflexivity].
    intros j [-> | []]. lia.
  - destruct IH as (m & Hin & Hleast & Hmin); [discriminate |].
    change (Math_min (map of_nat (a :: b :: r')))
      with (min2 (of_nat a) (Math_min (map of_nat (b :: r')))).
    rewrite Hmin, min2_of_nat.
    destruct (Nat.le_ge_cases a m) as [Ham | Hma].
    + exists a. rewrite Nat.min_l by exact Ham.
      split; [left; reflexivity |]. split; [| reflexivity].
      intros j [-> | Hj]; [lia |]. specialize (Hleast j Hj). lia.
    + exists m. rewrite Nat.min_r by exact Hma.
      split; [right; exact Hin |]. split; [| reflexivity].
      intros j [<- | Hj]; [lia |]. exact (Hleast j Hj).
Qed.

Lemma Math_min_least (l : list nat) (k : nat) :
  In k l -> (forall j, In j l -> k <= j) ->
  Math_min (map of_nat l) = of_nat k.
Proof.
  intros Hk Hleast.
  destruct (Math_min_positions l) as (m & Hin & Hm & ->).
  - intros ->. destruct Hk.
  - f_equal. specialize (Hm k Hk). specialize (Hleast m Hin). lia.
Qed.

(* ===================================================================== *)
(** ** The intersection resolution *)
(* ===================================================================== *)

Section Resolution.

Lemma fold_left_concat (l : list (list nat)) (acc : list nat) :
  fold_left (fun acc x => acc ++ x) l acc = acc ++ concat l.
Proof.
  revert acc. induction l as [| x l IH]; intros acc; simpl.
  - rewrite app_nil_r. reflexivity.
  - rewrite IH, <- app_assoc. reflexivity.
Qed.

(** Pairs between boxes numbered from 1 on never involve position 0. *)
Lemma pairsWith_no_zero (i : nat) (a : coords) (j : nat) (rest : list coords) :
  List.filter hasZero (pairsWith (S i) a (S j) rest) = [].
Proof.
  revert j. induction rest as [| b rest IH]; intros j; simpl; [reflexivity |].
  destruct (boxMeet a b); simpl; apply IH.
Qed.

Lemma intersectFull_no_zero (i : nat) (boxes : list coords) :
  List.filter hasZero (intersectFull (S i) boxes) = [].
Proof.
  revert i. induction boxes as [| a rest IH]; intros i; simpl; [reflexivity |].
  rewrite List.filter_app, pairsWith_no_zero, IH. reflexivity.
Qed.

(** The pairs of position 0 all pass the filter and flatten to the
    positions of the boxes that meet the probe. *)
Lemma pairsWith_zero_kept (p : coords) (j : nat) (rest : list coords) :
  List.filter hasZero (pairsWith 0 p (S j) rest) = pairsWith 0 p (S j) rest.
Proof.
  revert j. induction rest as [| b rest IH]; intros j; simpl; [reflexivity |].
  destruct (boxMeet p b); simpl; rewrite IH; reflexivity.
Qed.

Lemma pairsWith_zero_flat (p : coords) (j : nat) (rest : list coords) :
  List.filter (fun x => negb (Nat.eqb x 0)) (concat (pairsWith 0 p (S j) rest))
  = overlapping p (S j) rest.
Proof.
  revert j. induction rest as [| b rest IH]; intros j; simpl; [reflexivity |].
  destruct (boxMeet p b); simpl; rewrite IH; reflexivity.
Qed.

Lemma definedBoxes_Some (bs : list coords) : definedBoxes (map Some bs) = Some bs.
Proof. induction bs as [| b bs IH]; simpl; [| rewrite IH]; reflexivity. Qed.

(** With every entry defined, the resolution is the minimum of the
    positions of the tracks that meet the probe. *)
Lemma intersectArrayIndex_overlapping (p : coords) (bs : list coords) :
  intersectArrayIndex (Some p :: map Some bs)
  = Normal (Math_min (map of_nat (overlapping p 1 bs))).
Proof.
  unfold intersectArrayIndex, boxIntersect.
  change (Some p :: map Some bs) with (map Some (p :: bs)).
  rewrite definedBoxes_Some. simpl intersectFull.
  rewrite List.filter_app, intersectFull_no_zero, app_nil_r.
  rewrite pairsWith_zero_kept, fold_left_concat. simpl app.
  rewrite pairsWith_zero_flat. reflexivity.
Qed.

Lemma overlapping_spec (p : coords) (j : nat) (bs : list coords) (n : nat) :
  In n (overlapping p j bs) <->
  exists i b, n = j + i /\ bs !! i = Some b /\ boxMeet p b = true.
Proof.
  revert j. induction bs as [| b bs IH]; intros j; simpl.
  - split; [intros [] | intros (i & b & _ & H & _); discriminate].
  - destruct (boxMeet p b) eqn:E; simpl; rewrite IH; split.
    + intros [<- | (i & b' & -> & Hb & Hm)].
      * exists 0, b. rewrite Nat.add_0_r. auto.
      * exists (S i), b'. split; [lia | auto].
    + intros (i & b' & -> & Hb & Hm). destruct i as [| i]; simpl in Hb.
      * left. lia.
      * right. exists i, b'. split; [lia | auto].
    + intros (i & b' & -> & Hb & Hm). exists (S i), b'. split; [lia | auto].
    + intros (i & b' & -> & Hb & Hm). destruct i as [| i]; simpl in Hb.
      * injection Hb as <-. congruence.
      * exists i, b'. split; [lia | auto].
Qed.

(** The array of a fully cached sequence: the probe, then the cached
    boxes in sequence order. *)
Lemma createCoordsArray_cached (ids : list string) (m : gmap string coords)
    (bs : list coords) (p : coords) :
  cachedBoxes ids m bs ->
  <[0 := Some p]> (createCoordsArray ids m) = Some p :: map Some bs.
Proof. unfold cachedBoxes, createCoordsArray. intros ->. reflexivity. Qed.

Lemma cachedBoxes_length (ids : list string) (m : gmap string coords)
    (bs : list coords) :
  cachedBoxes ids m bs -> length bs = length ids.
Proof.
  unfold cachedBoxes. intros H. apply (f_equal (@length _)) in H.
  rewrite !length_map in H. congruence.
Qed.

(** A resolution over a fully cached sequence yields +Infinity when no
    track meets the probe, and otherwise the number of the first track
    that does. *)
Lemma resolution_cases (ids : list string) (m : gmap string coords)
    (bs : list coords) (p : coords) :
  cachedBoxes ids m bs ->
  (overlapping p 1 bs = [] /\
   intersectArrayIndex (<[0 := Some p]> (createCoordsArray ids m)) = Normal PInf)
  \/ exists k b,
       intersectArrayIndex (<[0 := Some p]> (createCoordsArray ids m))
       = Normal (of_nat (S k)) /\
       bs !! k = Some b /\ boxMeet p b = true /\
       forall j b', j < k -> bs !! j = Some b' -> boxMeet p b' = false.
Proof.
  intros Hc. rewrite (createCoordsArray_cached _ _ _ _ Hc).
  rewrite intersectArrayIndex_overlapping.
  destruct (overlapping p 1 bs) as [| a r] eqn:E.
  - left. split; reflexivity.
  - right. destruct (Math_min_positions (a :: r)) as (n & Hin & Hleast & Hmin);
      [discriminate |].
    rewrite <- E in Hin, Hleast.
    apply overlapping_spec in Hin. destruct Hin as (k & b & -> & Hb & Hm).
    exists k, b. split; [f_equal; exact Hmin |]. split; [exact Hb |].
    split; [exact Hm |].
    intros j b' Hj Hb'. destruct (boxMeet p b') eqn:F; [| reflexivity].
    assert (Hin : In (1 + j) (overlapping p 1 bs)).
    { apply overlapping_spec. exists j, b'. auto. }
    specialize (Hleast _ Hin). lia.
Qed.

Lemma topToBottom_lookup (bs : list coords) (i j : nat) (bi bj : coords) :
  topToBottom bs = true -> i < j ->
  bs !! i = Some bi -> bs !! j = Some bj -> (c3 bi <= c1 bj)%js.
Proof.
  revert i j. induction bs as [| b rest IH]; intros i j Ht Hij Hi Hj;
    [discriminate |].
  simpl in Ht. apply andb_true_iff in Ht. destruct Ht as [Hall Hrest].
  destruct j as [| j]; [lia |]. simpl in Hj.
  destruct i as [| i]; simpl in Hi.
  - injection Hi as <-. rewrite forallb_forall in Hall.
    apply Hall. apply list_elem_of_In. eapply list_elem_of_lookup_2. exact Hj.
  - apply (IH i j); [exact Hrest | lia | exact Hi | exact Hj].
Qed.

End Resolution.

(* ===================================================================== *)
(** ** Resolution of a point inside a track or on a boundary *)
(* ===================================================================== *)

Section PointResolution.

Variables (ids : list string) (coordsMap : gmap string coords).
Variable tracks : list coords.
Hypothesis Hcached : cachedBoxes ids coordsMap tracks.
Hypothesis Hordered : topToBottom tracks = true.

(** A track that ends at or above a level the point is strictly below
    does not meet the probe. *)
Lemma above_misses (x y lvl : number) (b : coords) :
  (c3 b <= lvl)%js -> (lvl < y)%js -> boxMeet (probeAt x y) b = false.
Proof.
  intros H1 H2. unfold boxMeet, boxOverlap. simpl.
  rewrite (lt_not_le _ _ (le_lt_trans _ _ _ H1 H2)).
  rewrite !andb_false_r. reflexivity.
Qed.

Lemma within_meets (x y : number) (b : coords) :
  (c0 b <= x)%js -> (x <= c2 b)%js -> (c1 b <= y)%js -> (y <= c3 b)%js ->
  boxMeet (probeAt x y) b = true.
Proof.
  intros H0 H2 H1 H3. unfold boxMeet, boxEmpty, boxOverlap. simpl.
  rewrite (le_self_l _ _ H2), (le_self_l _ _ H3).
  rewrite (le_trans _ _ _ H0 H2), (le_trans _ _ _ H1 H3).
  rewrite H0, H1, H2, H3. reflexivity.
Qed.

(** The first track that meets the probe decides the resolution. *)
Lemma first_meeting_track (p : coords) (k : nat) (bk : coords) :
  tracks !! k = Some bk -> boxMeet p bk = true ->
  (forall j b, j < k -> tracks !! j = Some b -> boxMeet p b = false) ->
  intersectArrayIndex (<[0 := Some p]> (createCoordsArray ids coordsMap))
  = Normal (of_nat (S k)).
Proof.
  intros Hk Hmeet Hbefore.
  rewrite (createCoordsArray_cached _ _ _ _ Hcached).
  rewrite intersectArrayIndex_overlapping. f_equal.
  apply Math_min_least.
  - apply overlapping_spec. exists k, bk. auto.
  - intros n Hn. apply overlapping_spec in Hn.
    destruct Hn as (j & b & -> & Hb & Hm).
    destruct (Nat.lt_ge_cases j k) as [Hlt | Hge]; [| lia].
    rewrite (Hbefore j b Hlt Hb) in Hm. discriminate.
Qed.

(** C1.  For row tracks cached for every identifier, laid out top to
    bottom without overlap, and a query point strictly inside the box of
    the track at position [k] of the sequence (track number [k+1]), the
    resolution -- [createCoordsArray] with the probe written at position 0,
    then [intersectArrayIndex] -- returns that track's 1-based number. *)
Theorem strictly_inside_resolves_to_track (x y : number) (k : nat) (bk : coords) :
  tracks !! k = Some bk ->
  (c0 bk < x)%js -> (x < c2 bk)%js ->
  (c1 bk < y)%js -> (y < c3 bk)%js ->
  intersectArrayIndex (<[0 := Some (probeAt x y)]> (createCoordsArray ids coordsMap))
  = Normal (of_nat (S k)).
Proof.
  intros Hk Hx0 Hx2 Hy1 Hy3.
  apply (first_meeting_track _ k bk Hk).
  - apply within_meets; apply lt_le; assumption.
  - intros j b Hj Hb. apply (above_misses x y (c1 bk)); [| exact Hy1].
    exact (topToBottom_lookup tracks j k b bk Hordered Hj Hb Hk).
Qed.


End PointResolution.

(** The point (7, 12) lies strictly inside the second row track. *)
Lemma strictly_inside_resolves_to_track_witness :
  intersectArrayIndex
    (<[0 := Some (probeAt (pixels 7) (pixels 12))]>
       (createCoordsArray gridRows (rowsCoordsMap gridApp)))
  = Normal (of_nat 2).
Proof.
  refine (strictly_inside_resolves_to_track gridRows (rowsCoordsMap gridApp)
            gridRowBoxes _ _ (pixels 7) (pixels 12) 1
            (Coords (pixels 0) (pixels 10) (pixels 15) (pixels 20)) _ _ _ _ _);
    vm_compute; reflexivity.
Defined.


(* ===================================================================== *)
(** ** A boundary shared by more than two tracks *)
(* ===================================================================== *)


(* ===================================================================== *)
(** ** The index update and the drop, step by step *)
(* ===================================================================== *)

Section DropSteps.

Lemma updateRowIndex_run (arr : list (option coords)) (this : AppComponent) :
  updateRowIndex arr this =
  match intersectArrayIndex arr with
  | Normal v => (Normal v, withRow v this)
  | Throw e => (Throw e, this)
  end.
Proof.
  unfold updateRowIndex, bind, lift, modify, ret.
  destruct (intersectArrayIndex arr); reflexivity.
Qed.

Lemma updateColIndex_run (arr : list (option coords)) (this : AppComponent) :
  updateColIndex arr this =
  match intersectArrayIndex arr with
  | Normal v => (Normal v, withCol v this)
  | Throw e => (Throw e, this)
  end.
Proof.
  unfold updateColIndex, bind, lift, modify, ret.
  destruct (intersectArrayIndex arr); reflexivity.
Qed.

Lemma updateIndices_run (c : coords) (this : AppComponent) :
  updateIndices c this =
  match intersectArrayIndex (rowsArray c this) with
  | Throw e => (Throw e, this)
  | Normal row =>
      match intersectArrayIndex (colsArray c this) with
      | Throw e => (Throw e, withRow row this)
      | Normal col => (Normal (row, col), withCol col (withRow row this))
      end
  end.
Proof.
  unfold updateIndices. unfold bind at 1. unfold get at 1.
  unfold bind at 1. rewrite updateRowIndex_run. fold (rowsArray c this).
  destruct (intersectArrayIndex (rowsArray c this)) as [row | e]; [| reflexivity].
  unfold bind. rewrite updateColIndex_run. fold (colsArray c this).
  destruct (intersectArrayIndex (colsArray c this)) as [col | e]; reflexivity.
Qed.

Lemma dragDropped_run (el : DOMRect) (this : AppComponent) :
  dragDropped el this =
  match updateIndices (center (calcCenter el this)) this with
  | (Throw e, this1) => (Throw e, this1)
  | (Normal (row, col), this1) =>
      match cachedCoord (cols this1) (colsCoordsMap this1) (col - of_nat 1)%js c0 with
      | Throw e => (Throw e, this1)
      | Normal destCoordX =>
          match cachedCoord (rows this1) (rowsCoordsMap this1) (row - of_nat 1)%js c1 with
          | Throw e => (Throw e, this1)
          | Normal destCoordY =>
              (Normal tt, settle (calcCenter el this) destCoordX destCoordY this1)
          end
      end
  end.
Proof.
  unfold dragDropped. unfold bind at 1. unfold get at 1. unfold bind at 1.
  destruct (updateIndices (center (calcCenter el this)) this) as [[[row col] | e] this1];
    [| reflexivity].
  unfold bind at 1. unfold get at 1. unfold bind at 1. unfold lift at 1. simpl fst. simpl snd.
  destruct (cachedCoord (cols this1) (colsCoordsMap this1) (col - of_nat 1)%js c0)
    as [dx | e]; [| reflexivity].
  unfold bind at 1. unfold lift at 1.
  destruct (cachedCoord (rows this1) (rowsCoordsMap this1) (row - of_nat 1)%js c1)
    as [dy | e]; reflexivity.
Qed.

(** The only error of the model. *)
Lemma error_is_TypeError (e : error) : e = TypeError.
Proof. destruct e. reflexivity. Qed.

(** A track number minus one, used as a key, selects that track's slot. *)
Lemma to_array_index_pred (k : nat) :
  to_array_index (of_nat (S k) - of_nat 1)%js = Some k.
Proof.
  unfold of_nat, sub, to_array_index.
  assert (E : Qred (inject_Z (Z.of_nat (S k)) - inject_Z (Z.of_nat 1))
              = inject_Z (Z.of_nat k)).
  { rewrite <- (Qred_identity (inject_Z (Z.of_nat k))) by apply Z.gcd_1_r.
    apply Qred_complete. unfold Qminus. rewrite <- inject_Z_opp, <- inject_Z_plus.
    apply inject_Z_injective. lia. }
  rewrite E. rewrite (Qred_identity (inject_Z (Z.of_nat k))) by apply Z.gcd_1_r.
  simpl. rewrite (proj2 (Z.leb_le 0 (Z.of_nat k))) by lia.
  rewrite Nat2Z.id. reflexivity.
Qed.

(** No slot is selected by a number that is not finite. *)
Lemma to_array_index_not_finite (v : number) :
  is_finite v = false -> to_array_index (v - of_nat 1)%js = None.
Proof. destruct v; simpl; [discriminate | reflexivity ..]. Qed.

Lemma cachedCoord_not_finite (ids : list string) (m : gmap string coords)
    (v : number) (entry : coords -> number) :
  is_finite v = false -> cachedCoord ids m (v - of_nat 1)%js entry = Throw TypeError.
Proof.
  intros H. unfold cachedCoord. rewrite (to_array_index_not_finite v H). reflexivity.
Qed.

Lemma cachedCoord_track (ids : list string) (m : gmap string coords)
    (k : nat) (id : string) (b : coords) (entry : coords -> number) :
  ids !! k = Some id -> m !! id = Some b ->
  cachedCoord ids m (of_nat (S k) - of_nat 1)%js entry = Normal (entry b).
Proof.
  intros Hid Hb. unfold cachedCoord.
  rewrite to_array_index_pred, Hid, Hb. reflexivity.
Qed.

End DropSteps.

(* ===================================================================== *)
(** ** The grid index across a drop *)
(* ===================================================================== *)

Section IndexArithmetic.

Local Open Scope Q_scope.

(** Shifting the end by the delta of the start keeps the span. *)
Lemma span_kept (e s : number) (t : Q) :
  (e + (Fin t - s) - Fin t)%js = (e - s)%js.
Proof.
  destruct e as [p | | |], s as [q | | |]; try reflexivity.
  simpl. f_equal. apply Qred_complete. rewrite !Qred_correct. ring.
Qed.

Lemma end_from_start (e s : number) (t : Q) :
  (e + (Fin t - s))%js = (Fin t + (e - s))%js.
Proof.
  destruct e as [p | | |], s as [q | | |]; try reflexivity.
  simpl. f_equal. apply Qred_complete. rewrite !Qred_correct. ring.
Qed.

End IndexArithmetic.

Lemma updateIndices_Normal (c : coords) (this this' : AppComponent) (row col : number) :
  updateIndices c this = (Normal (row, col), this') ->
  intersectArrayIndex (rowsArray c this) = Normal row /\
  intersectArrayIndex (colsArray c this) = Normal col /\
  this' = withCol col (withRow row this).
Proof.
  rewrite updateIndices_run.
  destruct (intersectArrayIndex (rowsArray c this)) as [r | e]; [| discriminate].
  destruct (intersectArrayIndex (colsArray c this)) as [c' | e]; [| discriminate].
  intros H. injection H as -> -> <-. auto.
Qed.

(** C5.  For every drop that resolves to (targetRow, targetCol), that is,
    whose row resolution returns targetRow and whose column resolution
    returns targetCol, the index update returns that pair, sets
    [rowStart] to targetRow and shifts [rowEnd] by the same delta,
    likewise [columnStart] and [columnEnd], so both spans are the same
    after the update as before; and that is the index [dragDropped]
    leaves. *)
Theorem index_update_keeps_spans (c : coords) (this : AppComponent)
    (targetRow targetCol : number) :
  intersectArrayIndex (rowsArray c this) = Normal targetRow ->
  intersectArrayIndex (colsArray c this) = Normal targetCol ->
  is_finite targetRow = true -> is_finite targetCol = true ->
  exists this',
    updateIndices c this = (Normal (targetRow, targetCol), this') /\
    rowStart (index this') = targetRow /\
    rowEnd (index this')
      = (rowEnd (index this) + (targetRow - rowStart (index this)))%js /\
    columnStart (index this') = targetCol /\
    columnEnd (index this')
      = (columnEnd (index this) + (targetCol - columnStart (index this)))%js /\
    (rowEnd (index this') - rowStart (index this'))%js
      = (rowEnd (index this) - rowStart (index this))%js /\
    (columnEnd (index this') - columnStart (index this'))%js
      = (columnEnd (index this) - columnStart (index this))%js /\
    (forall el, center (calcCenter el this) = c ->
       index (snd (dragDropped el this)) = index this').
Proof.
  intros Hrow Hcol Hr Hc.
  exists (withCol targetCol (withRow targetRow this)).
  split; [rewrite updateIndices_run, Hrow, Hcol; reflexivity |].
  assert (Hdrop : forall el, center (calcCenter el this) = c ->
            index (snd (dragDropped el this))
            = index (withCol targetCol (withRow targetRow this))).
  { intros el Hel. rewrite dragDropped_run, updateIndices_run, Hel, Hrow, Hcol.
    destruct (cachedCoord _ _ _ c0) as [dx | e]; [| reflexivity].
    destruct (cachedCoord _ _ _ c1) as [dy | e]; reflexivity. }
  clear Hrow Hcol. revert Hdrop.
  destruct this as [de p [rs re cs ce] rws cls ra rm cm ob sb dp pf].
  destruct targetRow as [t | | |]; try discriminate.
  destruct targetCol as [u | | |]; try discriminate.
  intros Hdrop. simpl.
  repeat (split; [first [reflexivity | apply span_kept] |]). exact Hdrop.
Qed.

(** The drop of the example grid: (7, 12) resolves to row 2, column 2. *)
Lemma index_update_keeps_spans_witness :
  exists this',
    updateIndices (probeAt (pixels 7) (pixels 12)) gridDragged
      = (Normal (pixels 2, pixels 2), this') /\
    (rowEnd (index this') - rowStart (index this'))%js
      = (rowEnd (index gridDragged) - rowStart (index gridDragged))%js.
Proof.
  destruct (index_update_keeps_spans (probeAt (pixels 7) (pixels 12)) gridDragged
              (pixels 2) (pixels 2)
              ltac:(vm_compute; reflexivity) ltac:(vm_compute; reflexivity)
              eq_refl eq_refl)
    as (this' & H & _ & _ & _ & _ & Hs & _).
  exists this'. split; [exact H | exact Hs].
Defined.

Lemma definedBoxes_inv (l : list (option coords)) (bs : list coords) :
  definedBoxes l = Some bs -> l = map Some bs.
Proof.
  revert bs. induction l as [| [b |] l IH]; intros bs H; simpl in H.
  - injection H as <-. reflexivity.
  - destruct (definedBoxes l) as [bs' |]; [| discriminate].
    injection H as <-. simpl. rewrite (IH bs' eq_refl). reflexivity.
  - discriminate.
Qed.

(** A resolution that returns found every identifier in the cache. *)
Lemma resolution_Normal_cached (ids : list string) (m : gmap string coords)
    (p : coords) (v : number) :
  intersectArrayIndex (<[0 := Some p]> (createCoordsArray ids m)) = Normal v ->
  exists tracks, cachedBoxes ids m tracks.
Proof.
  unfold intersectArrayIndex, boxIntersect, createCoordsArray. simpl.
  destruct (definedBoxes (map (fun id => m !! id) ids)) as [bs |] eqn:E;
    [| discriminate].
  intros _. exists bs. apply definedBoxes_inv. exact E.
Qed.

(** A finite result of a resolution is the number of a track. *)
Lemma resolution_finite_valid (ids : list string) (m : gmap string coords)
    (p : coords) (v : number) :
  intersectArrayIndex (<[0 := Some p]> (createCoordsArray ids m)) = Normal v ->
  is_finite v = true ->
  validIndex (length ids) v.
Proof.
  intros Hres Hfin.
  destruct (resolution_Normal_cached _ _ _ _ Hres) as [tracks Hc].
  destruct (resolution_cases ids m tracks p Hc) as [[_ H] | (k & b & H & Hb & _)];
    rewrite H in Hres; injection Hres as <-; [discriminate |].
  exists (S k). split; [reflexivity |].
  apply lookup_lt_Some in Hb. rewrite (cachedBoxes_length _ _ _ Hc) in Hb. lia.
Qed.

Lemma validIndex_within (n : nat) (v : number) :
  validIndex n v -> within (of_nat 1) (of_nat n) v = true.
Proof.
  intros (k & -> & Hk). unfold within. rewrite !leb_of_nat.
  apply andb_true_iff. split; apply Nat.leb_le; lia.
Qed.

(** The drop of the example grid ends with [rowEnd] = 4 on a grid of
    three row tracks: the four fields are not all within the grid. *)
Lemma index_fields_within_grid_fails :
  fst (dragDropped gridElement gridDragged) = Normal tt /\
  length (rows (snd (dragDropped gridElement gridDragged))) = 3 /\
  index (snd (dragDropped gridElement gridDragged))
    = GridIndex (pixels 2) (pixels 4) (pixels 2) (pixels 2) /\
  indexWithinGrid (snd (dragDropped gridElement gridDragged)) = false.
Proof. vm_compute. repeat split; reflexivity. Qed.

(** C4, as the code has it.  After every successful drop resolution
    [rowStart] lies within [1, N] and [columnStart] within [1, M];
    [rowEnd] and [columnEnd] are the new start plus the span the element
    had before the drop, and nothing bounds them by N or M. *)
Theorem resolved_starts_within_grid (c : coords) (this this' : AppComponent)
    (row col : number) :
  updateIndices c this = (Normal (row, col), this') ->
  is_finite row = true -> is_finite col = true ->
  within (of_nat 1) (of_nat (length (rows this'))) (rowStart (index this')) = true /\
  within (of_nat 1) (of_nat (length (cols this'))) (columnStart (index this')) = true /\
  rowEnd (index this')
    = (rowStart (index this') + (rowEnd (index this) - rowStart (index this)))%js /\
  columnEnd (index this')
    = (columnStart (index this') + (columnEnd (index this) - columnStart (index this)))%js.
Proof.
  intros Hrun Hr Hc.
  destruct (updateIndices_Normal _ _ _ _ _ Hrun) as (Hrow & Hcol & ->).
  pose proof (validIndex_within _ _ (resolution_finite_valid _ _ _ _ Hrow Hr)) as Wr.
  pose proof (validIndex_within _ _ (resolution_finite_valid _ _ _ _ Hcol Hc)) as Wc.
  destruct this as [de p [rs re cs ce] rws cls ra rm cm ob sb dp pf].
  simpl in *.
  split; [exact Wr |]. split; [exact Wc |].
  destruct row as [t | | |]; try discriminate.
  destruct col as [u | | |]; try discriminate.
  split; apply end_from_start.
Qed.

Lemma resolved_starts_within_grid_witness :
  within (of_nat 1) (of_nat 3)
    (rowStart (index (snd (updateIndices (probeAt (pixels 7) (pixels 12)) gridDragged))))
  = true.
Proof.
  apply (resolved_starts_within_grid (probeAt (pixels 7) (pixels 12)) gridDragged
           (snd (updateIndices (probeAt (pixels 7) (pixels 12)) gridDragged))
           (pixels 2) (pixels 2)); reflexivity.
Defined.

(** C7.  For every drop resolving to (targetRow, targetCol), the new drag
    offset is (element's left + previous offset x - left edge of the
    target column's cached box, element's top + previous offset y - top
    edge of the target row's cached box), each sum and difference
    rounded as the code rounds it: the x comes from the column cache and
    the y from the row cache. *)
Theorem drop_offset_from_caches (el : DOMRect) (this : AppComponent)
    (k j : nat) (rid cid : string) (rb cb : coords) :
  intersectArrayIndex (rowsArray (center (calcCenter el this)) this)
    = Normal (of_nat (S k)) ->
  intersectArrayIndex (colsArray (center (calcCenter el this)) this)
    = Normal (of_nat (S j)) ->
  rows this !! k = Some rid -> rowsCoordsMap this !! rid = Some rb ->
  cols this !! j = Some cid -> colsCoordsMap this !! cid = Some cb ->
  exists this',
    dragDropped el this = (Normal tt, this') /\
    pos this' = Point (left el ⊕ px (pos this) ⊖ c0 cb)%js
                      (top el ⊕ py (pos this) ⊖ c1 rb)%js /\
    rowStart (index this') = of_nat (S k) /\
    columnStart (index this') = of_nat (S j) /\
    readyToAnimation this' = true.
Proof.
  intros Hrow Hcol Hrid Hrb Hcid Hcb.
  rewrite dragDropped_run, updateIndices_run, Hrow, Hcol.
  change (cols (withCol (of_nat (S j)) (withRow (of_nat (S k)) this))) with (cols this).
  change (rows (withCol (of_nat (S j)) (withRow (of_nat (S k)) this))) with (rows this).
  change (colsCoordsMap (withCol (of_nat (S j)) (withRow (of_nat (S k)) this)))
    with (colsCoordsMap this).
  change (rowsCoordsMap (withCol (of_nat (S j)) (withRow (of_nat (S k)) this)))
    with (rowsCoordsMap this).
  rewrite (cachedCoord_track _ _ j cid cb c0 Hcid Hcb).
  rewrite (cachedCoord_track _ _ k rid rb c1 Hrid Hrb).
  eexists. split; [reflexivity |]. repeat split.
Qed.

(** The drop of the example grid, and a drop on measures that are not
    whole pixels: the centre 5 + 0.1 rounds onto the edge 5.1 that the
    two rows share, so the drop resolves to row 1, and the offset is
    0 + 0.1 - 0 = 0.1. *)
Lemma drop_offset_from_caches_witness :
  (exists this',
     dragDropped gridElement gridDragged = (Normal tt, this') /\
     pos this' = Point (Fin (-1 # 2)) (pixels (-3)) /\
     rowStart (index this') = of_nat 2 /\ columnStart (index this') = of_nat 2 /\
     readyToAnimation this' = true) /\
  (exists this',
     dragDropped gridElement fractionApp = (Normal tt, this') /\
     pos this' = Point (pixels 0 ⊕ Fin (9 # 2) ⊖ pixels 5)%js
                       (pixels 0 ⊕ roundQ (1 # 10) ⊖ pixels 0)%js /\
     rowStart (index this') = of_nat 1 /\ columnStart (index this') = of_nat 2 /\
     readyToAnimation this' = true).
Proof.
  split.
  - refine (drop_offset_from_caches gridElement gridDragged 1 1
              "rowid_b"%string "colid_b"%string
              (Coords (pixels 0) (pixels 10) (pixels 15) (pixels 20))
              (Coords (pixels 5) (pixels 0) (pixels 15) (pixels 30)) _ _ _ _ _ _);
      vm_compute; reflexivity.
  - refine (drop_offset_from_caches gridElement fractionApp 0 1
              "rowid_a"%string "colid_b"%string
              (Coords (pixels 0) (pixels 0) (pixels 15) (roundQ (51 # 10)))
              (Coords (pixels 5) (pixels 0) (pixels 15) (pixels 30)) _ _ _ _ _ _);
      vm_compute; reflexivity.
Defined.

(* ===================================================================== *)
(** ** Drops that do not resolve *)
(* ===================================================================== *)

Section FailedDrops.

Variables (el : DOMRect) (this : AppComponent).

(** Whatever happens after the row resolution returned, the row fields
    hold the new values when [dragDropped] ends. *)
Lemma dragDropped_row_fields (row : number) :
  intersectArrayIndex (rowsArray (center (calcCenter el this)) this) = Normal row ->
  rowStart (index (snd (dragDropped el this))) = row /\
  rowEnd (index (snd (dragDropped el this)))
    = (rowEnd (index this) + (row - rowStart (index this)))%js.
Proof.
  intros Hrow. rewrite dragDropped_run, updateIndices_run. rewrite Hrow.
  destruct (intersectArrayIndex (colsArray (center (calcCenter el this)) this))
    as [col | e]; [| split; reflexivity].
  destruct (cachedCoord _ _ (col - of_nat 1)%js c0) as [dx | e]; [| split; reflexivity].
  destruct (cachedCoord _ _ (row - of_nat 1)%js c1) as [dy | e]; split; reflexivity.
Qed.

(** A row resolution that is not finite makes the drop fault at the cache
    lookup, after the index was written and before [pos] and
    [readyToAnimation] are. *)
Lemma dragDropped_row_not_finite (row : number) :
  intersectArrayIndex (rowsArray (center (calcCenter el this)) this) = Normal row ->
  is_finite row = false ->
  exists this',
    dragDropped el this = (Throw TypeError, this') /\
    rowStart (index this') = row /\
    pos this' = pos this /\
    readyToAnimation this' = readyToAnimation this.
Proof.
  intros Hrow Hinf. rewrite dragDropped_run, updateIndices_run. rewrite Hrow.
  destruct (intersectArrayIndex (colsArray (center (calcCenter el this)) this))
    as [col | e].
  - destruct (cachedCoord _ _ (col - of_nat 1)%js c0) as [dx | e].
    + rewrite (cachedCoord_not_finite _ _ row c1 Hinf).
      eexists. split; [reflexivity |]. repeat split.
    + rewrite (error_is_TypeError e). eexists. split; [reflexivity |]. repeat split.
  - rewrite (error_is_TypeError e). eexists. split; [reflexivity |]. repeat split.
Qed.

(** The same when the column resolution throws or is not finite. *)
Lemma dragDropped_col_fails (row : number) :
  intersectArrayIndex (rowsArray (center (calcCenter el this)) this) = Normal row ->
  (intersectArrayIndex (colsArray (center (calcCenter el this)) this) = Normal PInf \/
   intersectArrayIndex (colsArray (center (calcCenter el this)) this)
     = Throw TypeError) ->
  exists this',
    dragDropped el this = (Throw TypeError, this') /\
    pos this' = pos this /\
    readyToAnimation this' = readyToAnimation this.
Proof.
  intros Hrow Hcol. rewrite dragDropped_run, updateIndices_run. rewrite Hrow.
  destruct Hcol as [-> | ->].
  - rewrite (cachedCoord_not_finite _ _ PInf c0 eq_refl).
    eexists. split; [reflexivity |]. split; reflexivity.
  - eexists. split; [reflexivity |]. split; reflexivity.
Qed.

(** A column resolution that is not finite, after a row resolution that
    returned: both starts are written, then the drop faults. *)
Lemma dragDropped_col_not_finite (row col : number) :
  intersectArrayIndex (rowsArray (center (calcCenter el this)) this) = Normal row ->
  intersectArrayIndex (colsArray (center (calcCenter el this)) this) = Normal col ->
  is_finite col = false ->
  exists this',
    dragDropped el this = (Throw TypeError, this') /\
    rowStart (index this') = row /\
    columnStart (index this') = col /\
    pos this' = pos this /\
    readyToAnimation this' = readyToAnimation this.
Proof.
  intros Hrow Hcol Hinf. rewrite dragDropped_run, updateIndices_run, Hrow, Hcol.
  rewrite (cachedCoord_not_finite _ _ col c0 Hinf).
  eexists. split; [reflexivity |]. repeat split.
Qed.

(** C10.  A drop is not atomic for the grid index: the row fields are
    written before the column resolution runs, so when the row resolution
    succeeds and the column resolution fails the drop faults, and however
    a drop faults after its row resolution returned, the index is left
    with the new row values: the index of before the drop is not put
    back. *)
Theorem drop_not_atomic (k : nat) :
  intersectArrayIndex (rowsArray (center (calcCenter el this)) this)
    = Normal (of_nat (S k)) ->
  ((intersectArrayIndex (colsArray (center (calcCenter el this)) this) = Normal PInf \/
    intersectArrayIndex (colsArray (center (calcCenter el this)) this)
     = Throw TypeError) ->
   exists this', dragDropped el this = (Throw TypeError, this')) /\
  (forall e this',
     dragDropped el this = (Throw e, this') ->
     rowStart (index this') = of_nat (S k) /\
     rowEnd (index this')
       = (rowEnd (index this) + (of_nat (S k) - rowStart (index this)))%js /\
     (rowStart (index this) <> of_nat (S k) -> index this' <> index this)).
Proof.
  intros Hrow. split.
  - intros Hcol.
    destruct (dragDropped_col_fails _ Hrow Hcol) as (this' & H & _).
    exists this'. exact H.
  - intros e this' Hrun.
    destruct (dragDropped_row_fields _ Hrow) as [H1 H2].
    rewrite Hrun in H1, H2. simpl in H1, H2.
    split; [exact H1 |]. split; [exact H2 |].
    intros Hne Heq. rewrite Heq in H1. exact (Hne H1).
Qed.

End FailedDrops.

(** After the resize the stale row boxes still contain (7, 12); no column
    box does. *)
Lemma drop_not_atomic_witness :
  (exists this', dragDropped gridElement gridResizedDragged = (Throw TypeError, this')) /\
  rowStart (index (snd (dragDropped gridElement gridResizedDragged))) = of_nat 2 /\
  rowStart (index gridResizedDragged) = of_nat 1.
Proof.
  pose proof (drop_not_atomic gridElement gridResizedDragged 1 eq_refl) as [H1 H2].
  split; [apply H1; left; reflexivity |].
  split; [| reflexivity].
  exact (proj1 (H2 TypeError (snd (dragDropped gridElement gridResizedDragged)) eq_refl)).
Defined.

(* ===================================================================== *)
(** ** A point outside every track *)
(* ===================================================================== *)

Lemma overlapping_none (p : coords) (j : nat) (tracks : list coords) :
  forallb (fun b => negb (boxMeet p b)) tracks = true ->
  overlapping p j tracks = [].
Proof.
  revert j. induction tracks as [| b rest IH]; intros j H; simpl; [reflexivity |].
  simpl in H. apply andb_true_iff in H. destruct H as [Hb Hrest].
  apply negb_true_iff in Hb. rewrite Hb. apply IH. exact Hrest.
Qed.

(** With every identifier cached and no track meeting the probe, the
    reduction is empty and [Math.min] gives +Infinity. *)
Lemma resolution_outside (ids : list string) (coordsMap : gmap string coords)
    (tracks : list coords) (p : coords) :
  cachedBoxes ids coordsMap tracks ->
  forallb (fun b => negb (boxMeet p b)) tracks = true ->
  intersectArrayIndex (<[0 := Some p]> (createCoordsArray ids coordsMap))
    = Normal PInf.
Proof.
  intros Hc Hout.
  rewrite (createCoordsArray_cached _ _ _ _ Hc), intersectArrayIndex_overlapping.
  rewrite (overlapping_none _ _ _ Hout). reflexivity.
Qed.

(** The point (7, 105) is below every row track of the example grid: the
    resolution returns, with +Infinity, and [updateRowIndex] writes that
    to [rowStart]; nothing is thrown. *)
Lemma out_of_range_not_signalled :
  intersectArrayIndex (rowsArray (probeAt (pixels 7) (pixels 105)) gridDraggedBelow)
    = Normal PInf /\
  (forall e,
     intersectArrayIndex (rowsArray (probeAt (pixels 7) (pixels 105)) gridDraggedBelow)
       <> Throw e) /\
  fst (updateRowIndex (rowsArray (probeAt (pixels 7) (pixels 105)) gridDraggedBelow)
         gridDraggedBelow) = Normal PInf /\
  rowStart (index (snd (updateRowIndex
      (rowsArray (probeAt (pixels 7) (pixels 105)) gridDraggedBelow)
      gridDraggedBelow))) = PInf.
Proof.
  assert (H : intersectArrayIndex
                (rowsArray (probeAt (pixels 7) (pixels 105)) gridDraggedBelow)
              = Normal PInf) by (vm_compute; reflexivity).
  split; [exact H |]. split; [intros e He; rewrite H in He; discriminate |].
  rewrite updateRowIndex_run, H. split; reflexivity.
Qed.

(** C3, as the code has it.  For every query point that meets no cached
    track box, the resolution returns +Infinity, the value of [Math.min]
    without arguments, which is no track number; it throws nothing.
    [updateRowIndex] and [updateColIndex] store that value in [rowStart]
    and [columnStart].  A drop whose centre is such a point for the rows,
    or, its row resolution having returned, for the columns, faults only
    afterwards, with a TypeError at the cache lookup, leaving [pos] and
    [readyToAnimation] as they were. *)
Theorem out_of_range_returns_infinity (ids : list string)
    (coordsMap : gmap string coords) (tracks : list coords) (p : coords) :
  cachedBoxes ids coordsMap tracks ->
  forallb (fun b => negb (boxMeet p b)) tracks = true ->
  intersectArrayIndex (<[0 := Some p]> (createCoordsArray ids coordsMap))
    = Normal PInf /\
  ~ validIndex (length ids) PInf /\
  (forall this,
     updateRowIndex (<[0 := Some p]> (createCoordsArray ids coordsMap)) this
       = (Normal PInf, withRow PInf this) /\
     rowStart (index (withRow PInf this)) = PInf) /\
  (forall this,
     updateColIndex (<[0 := Some p]> (createCoordsArray ids coordsMap)) this
       = (Normal PInf, withCol PInf this) /\
     columnStart (index (withCol PInf this)) = PInf) /\
  (forall el this,
     rows this = ids -> rowsCoordsMap this = coordsMap ->
     center (calcCenter el this) = p ->
     exists this',
       dragDropped el this = (Throw TypeError, this') /\
       rowStart (index this') = PInf /\
       pos this' = pos this /\
       readyToAnimation this' = readyToAnimation this) /\
  (forall el this row,
     cols this = ids -> colsCoordsMap this = coordsMap ->
     center (calcCenter el this) = p ->
     intersectArrayIndex (rowsArray p this) = Normal row ->
     exists this',
       dragDropped el this = (Throw TypeError, this') /\
       rowStart (index this') = row /\
       columnStart (index this') = PInf /\
       pos this' = pos this /\
       readyToAnimation this' = readyToAnimation this).
Proof.
  intros Hc Hout.
  pose proof (resolution_outside ids coordsMap tracks p Hc Hout) as H.
  split; [exact H |]. split; [intros (k & Hk & _); discriminate |]. split; [| split].
  - intros this. rewrite updateRowIndex_run, H. split; reflexivity.
  - intros this. rewrite updateColIndex_run, H. split; reflexivity.
  - split.
    + intros el this Hids Hmap Hctr.
      apply (dragDropped_row_not_finite el this PInf); [| reflexivity].
      unfold rowsArray. rewrite Hids, Hmap, Hctr. exact H.
    + intros el this row Hids Hmap Hctr Hrow.
      apply (dragDropped_col_not_finite el this row PInf); [| | reflexivity].
      * rewrite Hctr. exact Hrow.
      * unfold colsArray. rewrite Hids, Hmap, Hctr. exact H.
Qed.

(** The point (7, 105) is below every row of the example grid; the point
    (7, 12) is inside row 2 and, after the columns were measured in a
    narrower container, right of every column. *)
Lemma out_of_range_returns_infinity_witness :
  intersectArrayIndex
    (<[0 := Some (probeAt (pixels 7) (pixels 105))]>
       (createCoordsArray gridRows (rowsCoordsMap gridApp)))
  = Normal PInf /\
  exists this',
    dragDropped gridElement gridOutsideColumns = (Throw TypeError, this') /\
    rowStart (index this') = pixels 2 /\
    columnStart (index this') = PInf /\
    pos this' = pos gridOutsideColumns /\
    readyToAnimation this' = readyToAnimation gridOutsideColumns.
Proof.
  split.
  - apply (out_of_range_returns_infinity gridRows (rowsCoordsMap gridApp)
             gridRowBoxes (probeAt (pixels 7) (pixels 105)));
      vm_compute; reflexivity.
  - refine (proj2 (proj2 (proj2 (proj2 (proj2
              (out_of_range_returns_infinity gridCols
                 (colsCoordsMap gridOutsideColumns)
                 [ Coords (pixels 0) (pixels 0) (pixels 2) (pixels 30);
                   Coords (pixels 2) (pixels 0) (pixels 6) (pixels 30) ]
                 (probeAt (pixels 7) (pixels 12)) _ _)))))
              gridElement gridOutsideColumns (pixels 2) _ _ _ _);
      vm_compute; reflexivity.
Defined.

(* ===================================================================== *)
(** ** The centre of the dragged element *)
(* ===================================================================== *)

Section Center.

Lemma mul_half_div_2 (a : number) : (a * half)%js = (a / of_nat 2)%js.
Proof.
  destruct a as [p | | |]; reflexivity.
Qed.

(** C6.  For every dragged element with bounding box (left, top, right,
    bottom), row span [rowEnd - rowStart] and drag offset (x, y), the drop
    computes the probe centre as horizontal = (left + right) / 2 + x and
    vertical = (bottom - top) / rowSpan * 0.5 + top + y, every operation
    rounded as the code rounds it, and the probe box is that point as
    both corners; the element's left and top are handed on unchanged. *)
Theorem calcCenter_formula (el : DOMRect) (this : AppComponent) :
  let rowSpan := (rowEnd (index this) ⊖ rowStart (index this))%js in
  let horizontal := ((left el ⊕ right el) / of_nat 2 ⊕ px (pos this))%js in
  let vertical := ((bottom el ⊖ top el) / rowSpan * half ⊕ top el ⊕ py (pos this))%js in
  calcCenter el this
  = {| ctr_left := left el; ctr_top := top el;
       center := probeAt horizontal vertical |} /\
  center (calcCenter el this) = Coords horizontal vertical horizontal vertical.
Proof.
  unfold calcCenter, probeAt. cbv zeta. rewrite mul_half_div_2. split; reflexivity.
Qed.

(** On measures that are not whole pixels the centre is the rounded one:
    with a drag by (4.5, 0.1) the element [0,0,5,20] of row span 2 has
    its centre at (7, 5.1), the double nearest to 5.1. *)
Lemma calcCenter_rounds :
  center (calcCenter gridElement fractionApp)
  = probeAt (pixels 7) (roundQ (51 # 10)).
Proof. vm_compute. reflexivity. Qed.

Lemma roundQ_zero (q : Q) : (q == 0)%Q -> roundQ q = Fin 0.
Proof.
  intros H. unfold roundQ. rewrite (Qred_complete q 0 H). reflexivity.
Qed.

Lemma not_finite_add_l (a b : number) : is_finite a = false -> is_finite (a ⊕ b) = false.
Proof. destruct a, b; simpl; intros H; try reflexivity; discriminate. Qed.

Lemma not_finite_mul_half (a : number) : is_finite a = false -> is_finite (a * half) = false.
Proof. destruct a; simpl; intros H; try reflexivity; discriminate. Qed.

Lemma not_finite_inf_signed (cmp : comparison) : is_finite (inf_signed cmp) = false.
Proof. destruct cmp; reflexivity. Qed.

(** Dividing by the difference of two equal numbers never gives a finite
    number. *)
Lemma div_zero_span_not_finite (a e s : number) :
  eqb e s = true -> is_finite (a / (e ⊖ s)) = false.
Proof.
  destruct e as [p | | |], s as [q | | |]; simpl; try discriminate.
  - intros H. apply Qeq_bool_iff in H.
    rewrite (roundQ_zero (p - q)) by (rewrite H; ring).
    destruct a as [d | | |]; simpl; try reflexivity.
    apply not_finite_inf_signed.
  - intros _. destruct a; reflexivity.
  - intros _. destruct a; reflexivity.
Qed.

(** A probe whose height is not finite meets no box of finite corners. *)
Lemma not_finite_probe_misses (x y : number) (b : coords) :
  is_finite y = false -> finiteCoords b = true ->
  boxMeet (Coords x y x y) b = false.
Proof.
  intros Hy Hb. destruct b as [b0 b1 b2 b3]. unfold finiteCoords in Hb. simpl in Hb.
  destruct b1 as [q1 | | |]; try (rewrite ?andb_false_r in Hb; discriminate).
  destruct b3 as [q3 | | |]; try (rewrite ?andb_false_r in Hb; discriminate).
  unfold boxMeet, boxEmpty, boxOverlap. simpl.
  destruct y as [q | | |]; [discriminate | | |]; simpl;
    rewrite ?andb_false_r, ?orb_true_r, ?andb_false_l; reflexivity.
Qed.

End Center.

Section ZeroSpan.

Variables (el : DOMRect) (this : AppComponent).

Lemma zero_span_vertical_not_finite :
  eqb (rowEnd (index this)) (rowStart (index this)) = true ->
  is_finite (c1 (center (calcCenter el this))) = false /\
  is_finite (c3 (center (calcCenter el this))) = false.
Proof.
  intros H. unfold calcCenter. simpl.
  assert (E : is_finite ((bottom el ⊖ top el)
                         / (rowEnd (index this) ⊖ rowStart (index this))
                         * half ⊕ top el ⊕ py (pos this))%js = false).
  { do 2 apply not_finite_add_l. apply not_finite_mul_half.
    apply div_zero_span_not_finite. exact H. }
  split; exact E.
Qed.

Lemma zero_span_drop_faults (tracks : list coords) :
  eqb (rowEnd (index this)) (rowStart (index this)) = true ->
  cachedBoxes (rows this) (rowsCoordsMap this) tracks ->
  forallb finiteCoords tracks = true ->
  exists this', dragDropped el this = (Throw TypeError, this').
Proof.
  intros H Hc Hfin.
  destruct (zero_span_vertical_not_finite H) as [Hv _].
  destruct (dragDropped_row_not_finite el this PInf) as (this' & Hrun & _);
    [| reflexivity | exists this'; exact Hrun].
  apply (resolution_outside _ _ tracks); [exact Hc |].
  apply forallb_forall. intros b Hb. apply negb_true_iff.
  rewrite forallb_forall in Hfin.
  destruct (center (calcCenter el this)) as [h v h' v'] eqn:E.
  assert (Hh : h' = h /\ v' = v).
  { unfold calcCenter in E. simpl in E. injection E as <- <- <- <-. auto. }
  destruct Hh as (-> & ->).
  apply not_finite_probe_misses; [exact Hv | exact (Hfin b Hb)].
Qed.

(** C9, as the code has it.  For every state with [rowEnd] equal to
    [rowStart] (a row span of zero, or NaN when both are the same
    infinity), [calcCenter] divides (bottom - top) by it: the vertical
    centre, and with it both corners of the probe box, is not finite, and
    against row tracks with finite boxes the drop faults.  So [rowEnd]
    different from [rowStart] is a necessary precondition of a drop that
    resolves; [rowStart] < [rowEnd] follows only for an index whose end is
    not before its start. *)
Theorem zero_row_span_blocks_drop :
  (eqb (rowEnd (index this)) (rowStart (index this)) = true ->
   (rowEnd (index this) - rowStart (index this))%js = Fin 0
     \/ (rowEnd (index this) - rowStart (index this))%js = NaN) /\
  (eqb (rowEnd (index this)) (rowStart (index this)) = true ->
   is_finite (c1 (center (calcCenter el this))) = false /\
   is_finite (c3 (center (calcCenter el this))) = false /\
   forall tracks,
     cachedBoxes (rows this) (rowsCoordsMap this) tracks ->
     forallb finiteCoords tracks = true ->
     exists this', dragDropped el this = (Throw TypeError, this')) /\
  (forall tracks this',
     cachedBoxes (rows this) (rowsCoordsMap this) tracks ->
     forallb finiteCoords tracks = true ->
     dragDropped el this = (Normal tt, this') ->
     eqb (rowEnd (index this)) (rowStart (index this)) = false /\
     ((rowStart (index this) <= rowEnd (index this))%js ->
      (rowStart (index this) < rowEnd (index this))%js)).
Proof.
  split; [| split].
  - destruct (rowEnd (index this)) as [p | | |], (rowStart (index this)) as [q | | |];
      simpl; try discriminate; try (intros _; right; reflexivity).
    intros H. apply Qeq_bool_iff in H. left. f_equal.
    change 0%Q with (Qred 0). apply Qred_complete. rewrite H. ring.
  - intros H. destruct (zero_span_vertical_not_finite H) as [H1 H3].
    split; [exact H1 |]. split; [exact H3 |].
    intros tracks Hc Hfin. exact (zero_span_drop_faults tracks H Hc Hfin).
  - intros tracks this' Hc Hfin Hrun.
    assert (Hne : eqb (rowEnd (index this)) (rowStart (index this)) = false).
    { destruct (eqb (rowEnd (index this)) (rowStart (index this))) eqn:E;
        [| reflexivity].
      destruct (zero_span_drop_faults tracks E Hc Hfin) as [t Ht].
      rewrite Ht in Hrun. discriminate. }
    split; [exact Hne |]. intros Hle. apply le_ne_lt; assumption.
Qed.

End ZeroSpan.

(** With the index (3, 1, 1, 1) the row span is -2: the centre is the
    finite point (7, 2) and the drop resolves, to row 1 and column 2. *)
Lemma positive_row_span_not_needed :
  ltb (rowStart (index gridNegativeSpan)) (rowEnd (index gridNegativeSpan)) = false /\
  center (calcCenter gridElement gridNegativeSpan) = probeAt (pixels 7) (pixels 2) /\
  fst (dragDropped gridElement gridNegativeSpan) = Normal tt /\
  rowStart (index (snd (dragDropped gridElement gridNegativeSpan))) = pixels 1 /\
  columnStart (index (snd (dragDropped gridElement gridNegativeSpan))) = pixels 2.
Proof. vm_compute. repeat split; reflexivity. Qed.

(** The example grid with the index (2, 2, 1, 1). *)
Lemma zero_row_span_blocks_drop_witness :
  is_finite (c1 (center (calcCenter gridElement gridZeroSpan))) = false /\
  exists this', dragDropped gridElement gridZeroSpan = (Throw TypeError, this').
Proof.
  destruct (zero_row_span_blocks_drop gridElement gridZeroSpan) as (_ & H & _).
  destruct (H eq_refl) as (H1 & _ & H3).
  split; [exact H1 |].
  apply (H3 gridRowBoxes); vm_compute; reflexivity.
Defined.

(* ===================================================================== *)
(** ** Teardown *)
(* ===================================================================== *)

Lemma frameTick_pendingFrames (this : AppComponent) :
  pendingFrames (snd (frameTick this)) = pendingFrames this.
Proof.
  unfold frameTick, bind, get.
  destruct (pendingFrames this) as [| n] eqn:E; simpl; [exact E |].
  unfold animationLoop, bind, modify, get, ret. simpl.
  destruct (readyToAnimation this); reflexivity.
Qed.

Lemma frames_pendingFrames (n : nat) (this : AppComponent) :
  pendingFrames (frames n this) = pendingFrames this.
Proof.
  revert this. induction n as [| n IH]; intros this; simpl; [reflexivity |].
  rewrite IH. apply frameTick_pendingFrames.
Qed.

(** C8 fails on the code.  [ngOnDestroy] releases the resize observation,
    so no resize is reported after it, and nothing else: the frame
    callback registered by [animationLoop] stays pending through any
    number of frames after the destruction and still flips [dragEnded],
    and a debounce timer started before the destruction still re-measures
    the columns after it. *)
Theorem frame_loop_outlives_destroy :
  (forall this,
     observing (snd (ngOnDestroy this)) = false /\
     pendingFrames (snd (ngOnDestroy this)) = pendingFrames this /\
     subscribed (snd (ngOnDestroy this)) = subscribed this /\
     debouncePending (snd (ngOnDestroy this)) = debouncePending this /\
     snd (resizeNotified (snd (ngOnDestroy this))) = snd (ngOnDestroy this)) /\
  (forall n, pendingFrames (frames n (snd (ngOnDestroy gridApp))) = 1) /\
  dragEnded (snd (ngOnDestroy gridDropped)) = false /\
  dragEnded (snd (frameTick (snd (ngOnDestroy gridDropped)))) = true /\
  colsCoordsMap (snd (ngOnDestroy gridResizing)) !! "colid_b"%string
    = Some (Coords (pixels 5) (pixels 0) (pixels 15) (pixels 30)) /\
  colsCoordsMap (snd (debounceElapsed gridNarrowLayout (snd (ngOnDestroy gridResizing))))
    !! "colid_b"%string
    = Some (Coords (pixels 2) (pixels 0) (pixels 6) (pixels 30)).
Proof.
  split; [intros this; repeat split |].
  split; [intros n; rewrite frames_pendingFrames; reflexivity |].
  vm_compute. repeat split; reflexivity.
Qed.

(* ===================================================================== *)
(** ** The cache refresh *)
(* ===================================================================== *)

Section Refresh.

Variable layout : string -> option DOMRect.

Lemma updateCoordsMap_other (ids : list string) (m : gmap string coords) (k : string) :
  ~ In k ids -> snd (updateCoordsMap layout ids m) !! k = m !! k.
Proof.
  revert m. induction ids as [| id rest IH]; intros m Hk; simpl; [reflexivity |].
  destruct (layout id) as [r |]; [| reflexivity].
  rewrite IH by (intros H; apply Hk; right; exact H).
  apply lookup_insert_ne. intros ->. apply Hk. left. reflexivity.
Qed.

(** An entry that already holds the measure of its element stays so. *)
Lemma updateCoordsMap_keeps_measured (ids : list string) (m : gmap string coords)
    (k : string) (r : DOMRect) :
  layout k = Some r -> m !! k = Some (coordsOf r) ->
  snd (updateCoordsMap layout ids m) !! k = Some (coordsOf r).
Proof.
  revert m. induction ids as [| id rest IH]; intros m Hl Hm; simpl; [exact Hm |].
  destruct (layout id) as [r' |] eqn:E; [| exact Hm].
  apply IH; [exact Hl |].
  destruct (decide (id = k)) as [-> | Hne].
  - rewrite lookup_insert_eq. rewrite Hl in E. injection E as ->. reflexivity.
  - rewrite lookup_insert_ne by exact Hne. exact Hm.
Qed.

Lemma updateCoordsMap_fst (ids : list string) (m : gmap string coords) :
  fst (updateCoordsMap layout ids m)
  = if allPresent layout ids then Normal tt else Throw TypeError.
Proof.
  revert m. induction ids as [| id rest IH]; intros m; simpl; [reflexivity |].
  destruct (layout id) as [r |]; [apply IH | reflexivity].
Qed.

Lemma updateCoordsMap_written (ids : list string) (m : gmap string coords)
    (k : string) (r : DOMRect) :
  allPresent layout ids = true -> In k ids -> layout k = Some r ->
  snd (updateCoordsMap layout ids m) !! k = Some (coordsOf r).
Proof.
  revert m. induction ids as [| id rest IH]; intros m Hall Hk Hl; [destruct Hk |].
  simpl in Hall |- *. destruct (layout id) as [r' |] eqn:E; [| discriminate].
  destruct (decide (id = k)) as [-> | Hne].
  - apply updateCoordsMap_keeps_measured; [exact Hl |].
    rewrite lookup_insert_eq. rewrite Hl in E. injection E as ->. reflexivity.
  - destruct Hk as [-> | Hk]; [congruence |]. apply IH; assumption.
Qed.

(** X1.  When every identifier has an element, [updateCoordsMap] returns,
    the map then holds for each identifier of the sequence the box of its
    element, and every other key is as before. *)
Theorem updateCoordsMap_measures (ids : list string) (m : gmap string coords) :
  allPresent layout ids = true ->
  fst (updateCoordsMap layout ids m) = Normal tt /\
  (forall k r, In k ids -> layout k = Some r ->
     snd (updateCoordsMap layout ids m) !! k = Some (coordsOf r)) /\
  (forall k, ~ In k ids -> snd (updateCoordsMap layout ids m) !! k = m !! k).
Proof.
  intros Hall. split; [rewrite updateCoordsMap_fst, Hall; reflexivity |]. split.
  - intros k r Hk Hl. apply updateCoordsMap_written; assumption.
  - intros k Hk. apply updateCoordsMap_other. exact Hk.
Qed.

Lemma updateCoordsMap_app (pre post : list string) (m : gmap string coords) :
  allPresent layout pre = true ->
  updateCoordsMap layout (pre ++ post) m
  = updateCoordsMap layout post (snd (updateCoordsMap layout pre m)).
Proof.
  revert m. induction pre as [| id rest IH]; intros m Hall; simpl; [reflexivity |].
  simpl in Hall. destruct (layout id) as [r |]; [| discriminate].
  apply IH. exact Hall.
Qed.

(** X2.  At the first identifier without an element [updateCoordsMap]
    throws a TypeError: the identifiers before it are measured and
    written, the ones after it are not looked at. *)
Theorem updateCoordsMap_missing_element (pre post : list string) (id : string)
    (m : gmap string coords) :
  allPresent layout pre = true -> layout id = None ->
  updateCoordsMap layout (pre ++ id :: post) m
  = (Throw TypeError, snd (updateCoordsMap layout pre m)).
Proof.
  intros Hall Hid. rewrite (updateCoordsMap_app _ _ _ Hall). simpl.
  rewrite Hid. reflexivity.
Qed.

(** X3.  Refreshing twice over an unchanged layout is refreshing once:
    same completion, same map, also when the refresh faults. *)
Theorem updateCoordsMap_idempotent (ids : list string) (m : gmap string coords) :
  updateCoordsMap layout ids (snd (updateCoordsMap layout ids m))
  = updateCoordsMap layout ids m.
Proof.
  revert m. induction ids as [| id rest IH]; intros m; simpl; [reflexivity |].
  destruct (layout id) as [r |] eqn:E; simpl; [| reflexivity].
  rewrite (insert_id (snd (updateCoordsMap layout rest (<[id:=_]> m))) id (coordsOf r)).
  - apply IH.
  - apply updateCoordsMap_keeps_measured; [exact E |]. apply lookup_insert_eq.
Qed.

(** X4.  A refresh never removes an entry: a key the map held before is
    still held after, whatever the layout and however the refresh ends. *)
Theorem updateCoordsMap_keeps_keys (ids : list string) (m : gmap string coords)
    (k : string) :
  is_Some (m !! k) -> is_Some (snd (updateCoordsMap layout ids m) !! k).
Proof.
  revert m. induction ids as [| id rest IH]; intros m Hk; simpl; [exact Hk |].
  destruct (layout id) as [r |]; [| exact Hk].
  apply IH. apply lookup_insert_is_Some.
  destruct (decide (id = k)) as [-> | Hne]; [left; reflexivity | right].
  split; [exact Hne | exact Hk].
Qed.

End Refresh.

(* ===================================================================== *)
(** ** The resolution on any cache *)
(* ===================================================================== *)

Section AnyCache.

Variables (ids : list string) (coordsMap : gmap string coords).

Lemma definedBoxes_None (l : list (option coords)) :
  definedBoxes l = None <-> In None l.
Proof.
  induction l as [| [b |] l IH]; simpl.
  - split; [discriminate | intros []].
  - destruct (definedBoxes l) as [bs |].
    + split; [discriminate |]. intros [H | H]; [discriminate |].
      apply IH in H. discriminate.
    + split; [intros _; right; apply IH; reflexivity | reflexivity].
  - split; [intros _; left; reflexivity | reflexivity].
Qed.

Lemma uncached_throws_iff (p : coords) (e : error) :
  intersectArrayIndex (<[0 := Some p]> (createCoordsArray ids coordsMap)) = Throw e
  <-> exists id, In id ids /\ coordsMap !! id = None.
Proof.
  unfold intersectArrayIndex, boxIntersect, createCoordsArray. simpl.
  destruct (definedBoxes (map (fun id => coordsMap !! id) ids)) as [bs |] eqn:E.
  - split; [discriminate |]. intros (id & Hin & Hid).
    assert (H : In None (map (fun id => coordsMap !! id) ids)).
    { apply in_map_iff. exists id. auto. }
    apply definedBoxes_None in H. congruence.
  - split; [| intros _; rewrite (error_is_TypeError e); reflexivity].
    intros _. apply definedBoxes_None in E. apply in_map_iff in E.
    destruct E as (id & Hid & Hin). exists id. auto.
Qed.

(** X5.  The resolution throws exactly when an identifier of the sequence
    has no entry in the cache, whatever the probe; the error is a
    TypeError. *)
Theorem resolution_throws_iff_uncached (p : coords) :
  (exists e,
     intersectArrayIndex (<[0 := Some p]> (createCoordsArray ids coordsMap)) = Throw e)
  <-> exists id, In id ids /\ coordsMap !! id = None.
Proof.
  split.
  - intros [e He]. exact (proj1 (uncached_throws_iff p e) He).
  - intros H. exists TypeError.
    exact (proj2 (uncached_throws_iff p TypeError) H).
Qed.

Variable tracks : list coords.
Hypothesis Hcached : cachedBoxes ids coordsMap tracks.

Lemma overlapping_nil_misses (p : coords) (j : nat) (bs : list coords) :
  overlapping p j bs = [] -> forall b, In b bs -> boxMeet p b = false.
Proof.
  revert j. induction bs as [| b0 rest IH]; intros j H b Hb; [destruct Hb |].
  simpl in H. destruct (boxMeet p b0) eqn:E; [discriminate |].
  destruct Hb as [<- | Hb]; [exact E | exact (IH _ H b Hb)].
Qed.

(** X6.  Whatever the geometry of the cached boxes (ordered or not,
    overlapping or not), the resolution returns +Infinity when no box
    meets the probe, and otherwise the 1-based number of the first track,
    in sequence order, whose box meets it.  It never returns 0 or a
    number above the length of the sequence. *)
Theorem resolution_first_meeting_track (p : coords) :
  (intersectArrayIndex (<[0 := Some p]> (createCoordsArray ids coordsMap))
     = Normal PInf /\
   forall b, In b tracks -> boxMeet p b = false)
  \/
  (exists k b,
     intersectArrayIndex (<[0 := Some p]> (createCoordsArray ids coordsMap))
       = Normal (of_nat (S k)) /\
     S k <= length ids /\
     tracks !! k = Some b /\ boxMeet p b = true /\
     forall j b', j < k -> tracks !! j = Some b' -> boxMeet p b' = false).
Proof.
  destruct (resolution_cases ids coordsMap tracks p Hcached)
    as [[Hnil Hres] | (k & b & Hres & Hb & Hm & Hbefore)].
  - left. split; [exact Hres |]. exact (overlapping_nil_misses p 1 tracks Hnil).
  - right. exists k, b. split; [exact Hres |]. split.
    + apply lookup_lt_Some in Hb.
      rewrite (cachedBoxes_length _ _ _ Hcached) in Hb. lia.
    + auto.
Qed.

Lemma leftToRight_lookup (bs : list coords) (i j : nat) (bi bj : coords) :
  leftToRight bs = true -> i < j ->
  bs !! i = Some bi -> bs !! j = Some bj -> (c2 bi <= c0 bj)%js.
Proof.
  revert i j. induction bs as [| b rest IH]; intros i j Ht Hij Hi Hj;
    [discriminate |].
  simpl in Ht. apply andb_true_iff in Ht. destruct Ht as [Hall Hrest].
  destruct j as [| j]; [lia |]. simpl in Hj.
  destruct i as [| i]; simpl in Hi.
  - injection Hi as <-. rewrite forallb_forall in Hall.
    apply Hall. apply list_elem_of_In. eapply list_elem_of_lookup_2. exact Hj.
  - apply (IH i j); [exact Hrest | lia | exact Hi | exact Hj].
Qed.

Lemma strictlyInside_within (x y : number) (b : coords) :
  strictlyInside (probeAt x y) b = true ->
  (c0 b < x)%js /\ (x < c2 b)%js /\ (c1 b < y)%js /\ (y < c3 b)%js.
Proof.
  unfold strictlyInside. simpl. rewrite !andb_true_iff.
  intros [[[H0 H2] H1] H3]. auto.
Qed.

Lemma leftToRight_inside (x y : number) (k : nat) (bk : coords) :
  leftToRight tracks = true ->
  tracks !! k = Some bk ->
  strictlyInside (probeAt x y) bk = true ->
  intersectArrayIndex (<[0 := Some (probeAt x y)]> (createCoordsArray ids coordsMap))
  = Normal (of_nat (S k)).
Proof.
  intros Hord Hk Hin.
  destruct (strictlyInside_within _ _ _ Hin) as (H0 & H2 & H1 & H3).
  apply (first_meeting_track ids coordsMap tracks Hcached _ k bk Hk).
  - apply within_meets; apply lt_le; assumption.
  - intros j b Hj Hb.
    pose proof (leftToRight_lookup tracks j k b bk Hord Hj Hb Hk) as Hle.
    unfold boxMeet, boxOverlap. simpl.
    rewrite (lt_not_le _ _ (le_lt_trans _ _ _ Hle H0)).
    rewrite !andb_false_r. reflexivity.
Qed.

(** X7.  The same resolution serves the column axis: for column tracks
    laid out left to right without overlap and a point strictly inside
    the box of the track at position [k], it returns [k+1]. *)
Theorem strictly_inside_resolves_to_column (x y : number) (k : nat) (bk : coords) :
  leftToRight tracks = true ->
  tracks !! k = Some bk ->
  strictlyInside (probeAt x y) bk = true ->
  intersectArrayIndex (<[0 := Some (probeAt x y)]> (createCoordsArray ids coordsMap))
  = Normal (of_nat (S k)).
Proof. exact (leftToRight_inside x y k bk). Qed.

Lemma topToBottom_inside (x y : number) (k : nat) (bk : coords) :
  topToBottom tracks = true ->
  tracks !! k = Some bk ->
  strictlyInside (probeAt x y) bk = true ->
  intersectArrayIndex (<[0 := Some (probeAt x y)]> (createCoordsArray ids coordsMap))
  = Normal (of_nat (S k)).
Proof.
  intros Hord Hk Hin.
  destruct (strictlyInside_within _ _ _ Hin) as (H0 & H2 & H1 & H3).
  apply (first_meeting_track ids coordsMap tracks Hcached _ k bk Hk).
  - apply within_meets; apply lt_le; assumption.
  - intros j b Hj Hb. apply (above_misses x y (c1 bk)); [| exact H1].
    exact (topToBottom_lookup tracks j k b bk Hord Hj Hb Hk).
Qed.

End AnyCache.

(* ===================================================================== *)
(** ** The lifecycle hooks *)
(* ===================================================================== *)

Section Lifecycle.

Variable layout : string -> option DOMRect.

Lemma ngAfterViewInit_run (container : option DOMRect) (this : AppComponent) :
  ngAfterViewInit container layout this =
  match container with
  | None => (Throw TypeError, this)
  | Some _ =>
      let this1 := set_observing true this in
      match updateCoordsMap layout (rows this) (rowsCoordsMap this) with
      | (Throw e, m1) => (Throw e, set_rowsCoordsMap m1 this1)
      | (Normal _, m1) =>
          match updateCoordsMap layout (cols this) (colsCoordsMap this) with
          | (Throw e, m2) =>
              (Throw e, set_colsCoordsMap m2 (set_rowsCoordsMap m1 this1))
          | (Normal _, m2) =>
              animationLoop
                (set_subscribed true
                   (set_colsCoordsMap m2 (set_rowsCoordsMap m1 this1)))
          end
      end
  end.
Proof.
  destruct container as [box |]; [| reflexivity].
  unfold ngAfterViewInit, calcAxisCoords, calcRowsAxisCoords, calcColsAxisCoords,
    bind, modify. simpl.
  destruct (updateCoordsMap layout (rows this) (rowsCoordsMap this)) as [[[] | e] m1];
    [| reflexivity]. simpl.
  destruct (updateCoordsMap layout (cols this) (colsCoordsMap this)) as [[[] | e] m2];
    reflexivity.
Qed.

Lemma animationLoop_run (this : AppComponent) :
  animationLoop this =
  (Normal tt,
   if readyToAnimation this
   then set_readyToAnimation false
          (set_dragEnded true (set_pendingFrames (S (pendingFrames this)) this))
   else set_pendingFrames (S (pendingFrames this)) this).
Proof.
  unfold animationLoop, bind, modify, get, ret. simpl.
  destruct (readyToAnimation this); reflexivity.
Qed.

(** A map that holds every identifier of the sequence gives an array
    without [undefined]. *)
Lemma cachedBoxes_exists (ids : list string) (m : gmap string coords) :
  (forall id, In id ids -> is_Some (m !! id)) ->
  exists tracks, cachedBoxes ids m tracks.
Proof.
  unfold cachedBoxes. induction ids as [| id rest IH]; intros H.
  - exists []. reflexivity.
  - destruct IH as [bs Hbs]; [intros k Hk; apply H; right; exact Hk |].
    destruct (H id (or_introl eq_refl)) as [b Hb].
    exists (b :: bs). simpl. rewrite Hb, Hbs. reflexivity.
Qed.

Lemma allPresent_In (ids : list string) (k : string) :
  allPresent layout ids = true -> In k ids -> is_Some (layout k).
Proof.
  unfold allPresent. rewrite forallb_forall. intros H Hk.
  specialize (H k Hk). destruct (layout k); [eauto | discriminate].
Qed.

(** X8.  When the container is found and every row and column
    identifier has an element, [ngAfterViewInit] returns with the
    observer attached, the debounced subscription made and one more frame
    callback pending; both caches hold the measured box of each of their
    identifiers, so that from then on no resolution throws; [index] and
    [pos] are as before. *)
Theorem ngAfterViewInit_ready (box : DOMRect) (this : AppComponent) :
  allPresent layout (rows this) = true ->
  allPresent layout (cols this) = true ->
  exists this',
    ngAfterViewInit (Some box) layout this = (Normal tt, this') /\
    observing this' = true /\ subscribed this' = true /\
    pendingFrames this' = S (pendingFrames this) /\
    index this' = index this /\ pos this' = pos this /\
    (forall id r, In id (rows this) -> layout id = Some r ->
       rowsCoordsMap this' !! id = Some (coordsOf r)) /\
    (forall id r, In id (cols this) -> layout id = Some r ->
       colsCoordsMap this' !! id = Some (coordsOf r)) /\
    (forall p e, intersectArrayIndex (rowsArray p this') <> Throw e) /\
    (forall p e, intersectArrayIndex (colsArray p this') <> Throw e).
Proof.
  intros Hr Hc. rewrite ngAfterViewInit_run. cbv zeta.
  pose proof (updateCoordsMap_fst layout (rows this) (rowsCoordsMap this)) as Fr.
  pose proof (updateCoordsMap_fst layout (cols this) (colsCoordsMap this)) as Fc.
  rewrite Hr in Fr. rewrite Hc in Fc.
  pose proof (updateCoordsMap_written layout (rows this) (rowsCoordsMap this)) as Wr.
  pose proof (updateCoordsMap_written layout (cols this) (colsCoordsMap this)) as Wc.
  destruct (updateCoordsMap layout (rows this) (rowsCoordsMap this)) as [cr m1].
  destruct (updateCoordsMap layout (cols this) (colsCoordsMap this)) as [cc m2].
  simpl in Fr, Fc, Wr, Wc. subst cr cc. rewrite animationLoop_run.
  assert (Hrows : forall id, In id (rows this) -> is_Some (m1 !! id)).
  { intros id Hid. destruct (allPresent_In _ _ Hr Hid) as [r Hl].
    rewrite (Wr id r Hr Hid Hl). eauto. }
  assert (Hcols : forall id, In id (cols this) -> is_Some (m2 !! id)).
  { intros id Hid. destruct (allPresent_In _ _ Hc Hid) as [r Hl].
    rewrite (Wc id r Hc Hid Hl). eauto. }
  simpl. destruct (readyToAnimation this) eqn:Hready;
    (eexists; split; [reflexivity |]); simpl;
    (repeat (split; [reflexivity |]));
    (split; [intros id r Hid Hl; exact (Wr id r Hr Hid Hl) |]);
    (split; [intros id r Hid Hl; exact (Wc id r Hc Hid Hl) |]);
    split; intros p e He;
    apply uncached_throws_iff in He;
    destruct He as (id & Hid & Hnone).
  all: first [ destruct (Hrows id Hid) as [b Hb]; simpl in Hnone; congruence
             | destruct (Hcols id Hid) as [b Hb]; simpl in Hnone; congruence ].
Qed.

End Lifecycle.

Section LifecycleEdges.

Variable layout : string -> option DOMRect.

(** X9.  Without the container [ngAfterViewInit] faults with a TypeError
    before anything is attached or measured: the component is as before.
    With the container and a row or column identifier that has no
    element, it faults with a TypeError after attaching the observer: the
    debounced subscription is not made and the frame loop is not started;
    and when it is a row that is missing, no column is measured. *)
Theorem ngAfterViewInit_missing_element (this : AppComponent) :
  ngAfterViewInit None layout this = (Throw TypeError, this) /\
  forall box,
    allPresent layout (rows this ++ cols this) = false ->
    exists this',
      ngAfterViewInit (Some box) layout this = (Throw TypeError, this') /\
      observing this' = true /\
      subscribed this' = subscribed this /\
      pendingFrames this' = pendingFrames this /\
      index this' = index this /\
      (allPresent layout (rows this) = false ->
       colsCoordsMap this' = colsCoordsMap this).
Proof.
  split; [reflexivity |]. intros box H. unfold allPresent in H. rewrite forallb_app in H.
  fold (allPresent layout (rows this)) in H. fold (allPresent layout (cols this)) in H.
  rewrite ngAfterViewInit_run. cbv zeta.
  pose proof (updateCoordsMap_fst layout (rows this) (rowsCoordsMap this)) as Fr.
  pose proof (updateCoordsMap_fst layout (cols this) (colsCoordsMap this)) as Fc.
  destruct (updateCoordsMap layout (rows this) (rowsCoordsMap this)) as [cr m1].
  destruct (updateCoordsMap layout (cols this) (colsCoordsMap this)) as [cc m2].
  simpl in Fr, Fc.
  destruct (allPresent layout (rows this)) eqn:Er; subst cr.
  - destruct (allPresent layout (cols this)) eqn:Ec; [discriminate |]. subst cc.
    eexists. split; [reflexivity |]. repeat split. discriminate.
  - eexists. split; [reflexivity |]. repeat split.
Qed.

End LifecycleEdges.

(* ===================================================================== *)
(** ** Frames *)
(* ===================================================================== *)

Lemma frameTick_run (this : AppComponent) :
  frameTick this =
  (Normal tt,
   match pendingFrames this with
   | O => this
   | S n =>
       if readyToAnimation this
       then set_readyToAnimation false
              (set_dragEnded true (set_pendingFrames (S n) this))
       else set_pendingFrames (S n) this
   end).
Proof.
  unfold frameTick, bind, get, ret.
  destruct (pendingFrames this) as [| n] eqn:E; [reflexivity |].
  unfold modify. rewrite animationLoop_run. simpl.
  destruct (readyToAnimation this); reflexivity.
Qed.

(** X10.  A frame never throws and only ever consumes the flag: with a
    callback pending it leaves [readyToAnimation] false and [dragEnded]
    raised exactly when the flag was set, touching nothing else but the
    registration it renews; a second frame changes nothing more. *)
Theorem frameTick_settles (this : AppComponent) :
  fst (frameTick this) = Normal tt /\
  (pendingFrames this <> 0 ->
   readyToAnimation (snd (frameTick this)) = false /\
   dragEnded (snd (frameTick this)) = (dragEnded this || readyToAnimation this)%bool) /\
  pos (snd (frameTick this)) = pos this /\
  index (snd (frameTick this)) = index this /\
  rowsCoordsMap (snd (frameTick this)) = rowsCoordsMap this /\
  colsCoordsMap (snd (frameTick this)) = colsCoordsMap this /\
  snd (frameTick (snd (frameTick this))) = snd (frameTick this).
Proof.
  rewrite !frameTick_run. simpl.
  destruct this as [de p i rws cls ra rm cm ob sb dp [| n]]; simpl.
  - repeat split; congruence.
  - destruct ra, de; simpl; repeat split.
Qed.

(* ===================================================================== *)
(** ** Every outcome of a drop *)
(* ===================================================================== *)

Section DropOutcomes.

Lemma cachedBoxes_id_cached (ids : list string) (m : gmap string coords)
    (tracks : list coords) (i : nat) (id : string) :
  cachedBoxes ids m tracks -> ids !! i = Some id ->
  exists b, m !! id = Some b /\ tracks !! i = Some b.
Proof.
  unfold cachedBoxes. intros H Hid.
  assert (Hi : map (fun id => m !! id) ids !! i = Some (m !! id)).
  { rewrite list_lookup_fmap, Hid. reflexivity. }
  rewrite H, list_lookup_fmap in Hi.
  destruct (tracks !! i) as [b |]; simpl in Hi; [| discriminate].
  exists b. split; [congruence | reflexivity].
Qed.

(** A finite result of a resolution selects a cached box. *)
Lemma cachedCoord_finite (ids : list string) (m : gmap string coords)
    (p : coords) (v : number) (entry : coords -> number) :
  intersectArrayIndex (<[0 := Some p]> (createCoordsArray ids m)) = Normal v ->
  is_finite v = true ->
  exists k id b,
    v = of_nat (S k) /\ ids !! k = Some id /\ m !! id = Some b /\
    cachedCoord ids m (v - of_nat 1)%js entry = Normal (entry b).
Proof.
  intros Hres Hfin.
  destruct (resolution_Normal_cached _ _ _ _ Hres) as [tracks Hc].
  destruct (resolution_finite_valid _ _ _ _ Hres Hfin) as (k & -> & Hk).
  destruct k as [| k]; [lia |].
  destruct (lookup_lt_is_Some_2 ids k) as [id Hid]; [lia |].
  destruct (cachedBoxes_id_cached _ _ _ _ _ Hc Hid) as (b & Hb & _).
  exists k, id, b. split; [reflexivity |]. split; [exact Hid |]. split; [exact Hb |].
  exact (cachedCoord_track _ _ k id b entry Hid Hb).
Qed.

Lemma cachedCoord_Normal_finite (ids : list string) (m : gmap string coords)
    (v d : number) (entry : coords -> number) :
  cachedCoord ids m (v - of_nat 1)%js entry = Normal d -> is_finite v = true.
Proof.
  intros H. destruct (is_finite v) eqn:E; [reflexivity |].
  rewrite (cachedCoord_not_finite _ _ _ _ E) in H. discriminate.
Qed.

Variables (el : DOMRect) (this : AppComponent).

(** What a completed drop went through. *)
Lemma dragDropped_Normal_inv (this' : AppComponent) :
  dragDropped el this = (Normal tt, this') ->
  exists row col dx dy,
    intersectArrayIndex (rowsArray (center (calcCenter el this)) this) = Normal row /\
    intersectArrayIndex (colsArray (center (calcCenter el this)) this) = Normal col /\
    is_finite row = true /\ is_finite col = true /\
    cachedCoord (cols this) (colsCoordsMap this) (col - of_nat 1)%js c0 = Normal dx /\
    cachedCoord (rows this) (rowsCoordsMap this) (row - of_nat 1)%js c1 = Normal dy /\
    this' = settle (calcCenter el this) dx dy (withCol col (withRow row this)).
Proof.
  rewrite dragDropped_run, updateIndices_run.
  destruct (intersectArrayIndex (rowsArray _ this)) as [row | e]; [| discriminate].
  destruct (intersectArrayIndex (colsArray _ this)) as [col | e]; [| discriminate].
  change (cols (withCol col (withRow row this))) with (cols this).
  change (rows (withCol col (withRow row this))) with (rows this).
  change (colsCoordsMap (withCol col (withRow row this))) with (colsCoordsMap this).
  change (rowsCoordsMap (withCol col (withRow row this))) with (rowsCoordsMap this).
  destruct (cachedCoord (cols this) _ _ c0) as [dx | e] eqn:Ex; [| discriminate].
  destruct (cachedCoord (rows this) _ _ c1) as [dy | e] eqn:Ey; [| discriminate].
  intros H. injection H as <-.
  exists row, col, dx, dy. repeat split; try reflexivity; try assumption.
  - exact (cachedCoord_Normal_finite _ _ _ _ _ Ey).
  - exact (cachedCoord_Normal_finite _ _ _ _ _ Ex).
Qed.

(** X12.  A drop completes exactly when both resolutions return a finite
    number: a finite result always finds its box in the cache, so the
    lookups of the target cell add no way to fault. *)
Theorem dragDropped_completes_iff :
  (exists this', dragDropped el this = (Normal tt, this'))
  <->
  (exists row col,
     intersectArrayIndex (rowsArray (center (calcCenter el this)) this) = Normal row /\
     intersectArrayIndex (colsArray (center (calcCenter el this)) this) = Normal col /\
     is_finite row = true /\ is_finite col = true).
Proof.
  split.
  - intros [this' H].
    destruct (dragDropped_Normal_inv this' H) as (row & col & dx & dy & H1 & H2 & H3 & H4 & _).
    exists row, col. auto.
  - intros (row & col & Hrow & Hcol & Fr & Fc).
    rewrite dragDropped_run, updateIndices_run, Hrow, Hcol.
    destruct (cachedCoord_finite _ _ _ _ c0 Hcol Fc) as (j & cid & cb & _ & _ & _ & Hx).
    destruct (cachedCoord_finite _ _ _ _ c1 Hrow Fr) as (k & rid & rb & _ & _ & _ & Hy).
    change (cols (withCol col (withRow row this))) with (cols this).
    change (rows (withCol col (withRow row this))) with (rows this).
    change (colsCoordsMap (withCol col (withRow row this))) with (colsCoordsMap this).
    change (rowsCoordsMap (withCol col (withRow row this))) with (rowsCoordsMap this).
    rewrite Hx, Hy. eexists. reflexivity.
Qed.

Lemma dragDropped_untouched :
  let out := dragDropped el this in
  rows (snd out) = rows this /\ cols (snd out) = cols this /\
  rowsCoordsMap (snd out) = rowsCoordsMap this /\
  colsCoordsMap (snd out) = colsCoordsMap this /\
  dragEnded (snd out) = dragEnded this /\
  observing (snd out) = observing this /\ subscribed (snd out) = subscribed this /\
  debouncePending (snd out) = debouncePending this /\
  pendingFrames (snd out) = pendingFrames this /\
  (fst out <> Normal tt ->
   pos (snd out) = pos this /\ readyToAnimation (snd out) = readyToAnimation this).
Proof.
  cbv zeta. rewrite dragDropped_run, updateIndices_run.
  destruct (intersectArrayIndex (rowsArray _ this)) as [row | e];
    [| simpl; repeat split].
  destruct (intersectArrayIndex (colsArray _ this)) as [col | e];
    [| simpl; repeat split].
  destruct (cachedCoord _ _ (col - of_nat 1)%js c0) as [dx | e];
    [| simpl; repeat split].
  destruct (cachedCoord _ _ (row - of_nat 1)%js c1) as [dy | e];
    simpl; repeat split; congruence.
Qed.

(** X13.  However it ends, a drop writes neither the identifiers, nor the
    caches, nor [dragEnded], nor any registration; and when it faults it
    leaves [pos] and [readyToAnimation] as they were, so that no
    animation starts. *)
Theorem dragDropped_frame :
  let out := dragDropped el this in
  rows (snd out) = rows this /\ cols (snd out) = cols this /\
  rowsCoordsMap (snd out) = rowsCoordsMap this /\
  colsCoordsMap (snd out) = colsCoordsMap this /\
  dragEnded (snd out) = dragEnded this /\
  observing (snd out) = observing this /\ subscribed (snd out) = subscribed this /\
  debouncePending (snd out) = debouncePending this /\
  pendingFrames (snd out) = pendingFrames this /\
  (fst out <> Normal tt ->
   pos (snd out) = pos this /\ readyToAnimation (snd out) = readyToAnimation this).
Proof. exact dragDropped_untouched. Qed.

(** X14.  A drop while some row identifier has no cached box (so also any
    drop before the first refresh) faults with a TypeError before
    anything is written: the component is exactly as before. *)
Theorem dragDropped_uncached_row (id : string) :
  In id (rows this) -> rowsCoordsMap this !! id = None ->
  dragDropped el this = (Throw TypeError, this).
Proof.
  intros Hin Hnone. rewrite dragDropped_run, updateIndices_run.
  assert (H : intersectArrayIndex (rowsArray (center (calcCenter el this)) this)
              = Throw TypeError).
  { apply uncached_throws_iff. exists id. auto. }
  rewrite H. reflexivity.
Qed.

(** A drop that completes keeps both spans of the index. *)
Lemma dragDropped_keeps_spans (this' : AppComponent) :
  dragDropped el this = (Normal tt, this') ->
  rowSpan this' = rowSpan this /\ colSpan this' = colSpan this.
Proof.
  intros H.
  destruct (dragDropped_Normal_inv this' H)
    as (row & col & dx & dy & _ & _ & Fr & Fc & _ & _ & ->).
  destruct row as [t | | |]; try discriminate.
  destruct col as [u | | |]; try discriminate.
  unfold rowSpan, colSpan. simpl. split; apply span_kept.
Qed.

End DropOutcomes.

(* ===================================================================== *)
(** ** A component stuck after a missed drop *)
(* ===================================================================== *)

Section SnapAndStuck.

Variables (el : DOMRect) (this : AppComponent).

Lemma sub_NaN_rounded (e s : number) : (e - s)%js = NaN -> (e ⊖ s)%js = NaN.
Proof. destruct e, s; simpl; try discriminate; reflexivity. Qed.

Lemma rowSpan_NaN_center_any (g : DOMRect) (s : AppComponent) :
  rowSpan s = NaN -> c1 (center (calcCenter g s)) = NaN.
Proof.
  unfold rowSpan, calcCenter. simpl. intros H. rewrite (sub_NaN_rounded _ _ H).
  destruct (bottom g ⊖ top g)%js; reflexivity.
Qed.

Lemma NaN_probe_misses (p b : coords) : c1 p = NaN -> boxMeet p b = false.
Proof.
  intros H. unfold boxMeet, boxEmpty. rewrite H. simpl.
  rewrite orb_true_r. reflexivity.
Qed.

Lemma NaN_probe_resolution (ids : list string) (m : gmap string coords) (p : coords) :
  c1 p = NaN ->
  intersectArrayIndex (<[0 := Some p]> (createCoordsArray ids m)) = Normal PInf \/
  intersectArrayIndex (<[0 := Some p]> (createCoordsArray ids m)) = Throw TypeError.
Proof.
  intros H.
  destruct (intersectArrayIndex (<[0 := Some p]> (createCoordsArray ids m)))
    as [v | e] eqn:E; [left | right; rewrite (error_is_TypeError e); reflexivity].
  destruct (resolution_Normal_cached _ _ _ _ E) as [tracks Hc].
  rewrite <- E. apply (resolution_outside _ _ tracks); [exact Hc |].
  apply forallb_forall. intros b _. rewrite (NaN_probe_misses p b H). reflexivity.
Qed.

Lemma missed_span (e s : number) : (e + (PInf - s) - PInf)%js = NaN.
Proof. destruct e, s; reflexivity. Qed.

Lemma gesture_run (distance : point) (g : DOMRect) (s : AppComponent) :
  gesture distance g s = dragDropped g (set_pos distance (set_dragEnded false s)).
Proof. reflexivity. Qed.

(** X16.  A drop whose row resolution finds no track leaves a row span
    that is NaN, and with a row span that is NaN every drop faults and
    leaves it NaN: after one missed drop no gesture completes any more,
    wherever the element is dropped. *)
Theorem missed_drop_sticks :
  rowSpan this = NaN \/
  intersectArrayIndex (rowsArray (center (calcCenter el this)) this) = Normal PInf ->
  exists this',
    dragDropped el this = (Throw TypeError, this') /\
    rowSpan this' = NaN /\
    forall g rest, exists this'',
      gestures (g :: rest) this' = (Throw TypeError, this'') /\ rowSpan this'' = NaN.
Proof.
  assert (Missed : forall g s,
    intersectArrayIndex (rowsArray (center (calcCenter g s)) s) = Normal PInf ->
    exists s', dragDropped g s = (Throw TypeError, s') /\ rowSpan s' = NaN).
  { intros g s Hrow.
    destruct (dragDropped_row_not_finite g s PInf Hrow eq_refl) as (s' & Hrun & _).
    destruct (dragDropped_row_fields g s PInf Hrow) as [H1 H2].
    rewrite Hrun in H1, H2. simpl in H1, H2.
    exists s'. split; [exact Hrun |]. unfold rowSpan. rewrite H1, H2.
    apply missed_span. }
  assert (Stuck : forall g s, rowSpan s = NaN ->
    exists s', dragDropped g s = (Throw TypeError, s') /\ rowSpan s' = NaN).
  { intros g s Hs.
    pose proof (rowSpan_NaN_center_any g s Hs) as Hc.
    destruct (NaN_probe_resolution (rows s) (rowsCoordsMap s) _ Hc) as [Hrow | Hrow].
    - exact (Missed g s Hrow).
    - exists s. split; [| exact Hs].
      rewrite dragDropped_run, updateIndices_run.
      unfold rowsArray. rewrite Hrow. reflexivity. }
  intros H.
  assert (First : exists this', dragDropped el this = (Throw TypeError, this')
                                /\ rowSpan this' = NaN).
  { destruct H as [H | H]; [exact (Stuck el this H) | exact (Missed el this H)]. }
  destruct First as (this' & Hrun & Hspan).
  exists this'. split; [exact Hrun |]. split; [exact Hspan |].
  intros g rest.
  destruct (Stuck (snd g) (set_pos (fst g) (set_dragEnded false this')) Hspan)
    as (s'' & Hg & Hs'').
  exists s''. split; [| exact Hs''].
  change (gestures (g :: rest) this')
    with (bind (gesture (fst g) (snd g)) (fun _ => gestures rest) this').
  unfold bind. rewrite gesture_run, Hg. reflexivity.
Qed.

End SnapAndStuck.

(* ===================================================================== *)
(** ** Whole drops and series of gestures *)
(* ===================================================================== *)

Section WholeDrop.

Variables (el : DOMRect) (this : AppComponent).
Variables (rowBoxes colBoxes : list coords).
Hypothesis Hrows : cachedBoxes (rows this) (rowsCoordsMap this) rowBoxes.
Hypothesis Hcols : cachedBoxes (cols this) (colsCoordsMap this) colBoxes.

(** X17.  End to end: with the rows cached top to bottom and the columns
    cached left to right, a drop whose centre lies strictly inside the
    box of row [k+1] and of column [j+1] completes; the index starts at
    that row and column with both ends shifted alike, the offset is
    measured from the left edge of that column and the top edge of that
    row, rounded as the code rounds it, and the animation flag is set.
    The centre is the one [calcCenter] computes, rounding included. *)
Theorem drop_inside_cell (k j : nat) (rb cb : coords) :
  topToBottom rowBoxes = true -> leftToRight colBoxes = true ->
  rowBoxes !! k = Some rb -> colBoxes !! j = Some cb ->
  strictlyInside (center (calcCenter el this)) rb = true ->
  strictlyInside (center (calcCenter el this)) cb = true ->
  exists this',
    dragDropped el this = (Normal tt, this') /\
    index this'
      = GridIndex (of_nat (S k))
                  (rowEnd (index this) + (of_nat (S k) - rowStart (index this)))%js
                  (of_nat (S j))
                  (columnEnd (index this) + (of_nat (S j) - columnStart (index this)))%js /\
    pos this' = Point (left el ⊕ px (pos this) ⊖ c0 cb)%js
                      (top el ⊕ py (pos this) ⊖ c1 rb)%js /\
    readyToAnimation this' = true.
Proof.
  intros Hord Hord' Hk Hj Hin Hin'.
  assert (Hrow : intersectArrayIndex (rowsArray (center (calcCenter el this)) this)
                 = Normal (of_nat (S k))).
  { exact (topToBottom_inside _ _ _ Hrows _ _ k rb Hord Hk Hin). }
  assert (Hcol : intersectArrayIndex (colsArray (center (calcCenter el this)) this)
                 = Normal (of_nat (S j))).
  { exact (leftToRight_inside _ _ _ Hcols _ _ j cb Hord' Hj Hin'). }
  destruct (lookup_lt_is_Some_2 (rows this) k) as [rid Hrid].
  { rewrite <- (cachedBoxes_length _ _ _ Hrows). eapply lookup_lt_Some. exact Hk. }
  destruct (lookup_lt_is_Some_2 (cols this) j) as [cid Hcid].
  { rewrite <- (cachedBoxes_length _ _ _ Hcols). eapply lookup_lt_Some. exact Hj. }
  destruct (cachedBoxes_id_cached _ _ _ _ _ Hrows Hrid) as (rb' & Hrb & Hrb').
  destruct (cachedBoxes_id_cached _ _ _ _ _ Hcols Hcid) as (cb' & Hcb & Hcb').
  assert (rb' = rb) by congruence. assert (cb' = cb) by congruence. subst rb' cb'.
  rewrite dragDropped_run, updateIndices_run, Hrow, Hcol.
  change (cols (withCol (of_nat (S j)) (withRow (of_nat (S k)) this))) with (cols this).
  change (rows (withCol (of_nat (S j)) (withRow (of_nat (S k)) this))) with (rows this).
  change (colsCoordsMap (withCol (of_nat (S j)) (withRow (of_nat (S k)) this)))
    with (colsCoordsMap this).
  change (rowsCoordsMap (withCol (of_nat (S j)) (withRow (of_nat (S k)) this)))
    with (rowsCoordsMap this).
  rewrite (cachedCoord_track _ _ j cid cb c0 Hcid Hcb).
  rewrite (cachedCoord_track _ _ k rid rb c1 Hrid Hrb).
  eexists. split; [reflexivity |]. repeat split.
Qed.

End WholeDrop.

Section Series.

(** What a completed series of gestures has kept. *)
Lemma gestures_Normal_inv (gs : list (point * DOMRect)) (this this' : AppComponent) :
  gestures gs this = (Normal tt, this') ->
  rowSpan this' = rowSpan this /\ colSpan this' = colSpan this /\
  rows this' = rows this /\ cols this' = cols this /\
  rowsCoordsMap this' = rowsCoordsMap this /\
  colsCoordsMap this' = colsCoordsMap this /\
  pendingFrames this' = pendingFrames this.
Proof.
  revert this. induction gs as [| g rest IH]; intros this H.
  - injection H as <-. repeat split.
  - change (gestures (g :: rest) this)
      with (bind (gesture (fst g) (snd g)) (fun _ => gestures rest) this) in H.
    unfold bind in H. rewrite gesture_run in H.
    destruct (dragDropped (snd g) (set_pos (fst g) (set_dragEnded false this)))
      as [[[] | e] s1] eqn:E; [| discriminate].
    destruct (IH s1 H) as (I1 & I2 & I3 & I4 & I5 & I6 & I7).
    destruct (dragDropped_keeps_spans _ _ _ E) as [S1 S2].
    pose proof (dragDropped_untouched (snd g) (set_pos (fst g) (set_dragEnded false this)))
      as F. cbv zeta in F. rewrite E in F. simpl in F.
    destruct F as (F1 & F2 & F3 & F4 & _ & _ & _ & _ & F9 & _).
    unfold rowSpan, colSpan in *. simpl in S1, S2.
    repeat split; congruence.
Qed.

(** X18.  Both spans of the index are invariants of every series of
    gestures that completes, whatever the moves and the drop targets;
    the identifiers and both caches are fixed as well. *)
Theorem gestures_keep_spans (gs : list (point * DOMRect)) (this this' : AppComponent) :
  gestures gs this = (Normal tt, this') ->
  rowSpan this' = rowSpan this /\ colSpan this' = colSpan this /\
  rows this' = rows this /\ cols this' = cols this /\
  rowsCoordsMap this' = rowsCoordsMap this /\
  colsCoordsMap this' = colsCoordsMap this.
Proof.
  intros H. destruct (gestures_Normal_inv gs this this' H) as (? & ? & ? & ? & ? & ? & _).
  auto 10.
Qed.

End Series.

Section FromConstruction.

Lemma ngAfterViewInit_index (container : option DOMRect)
    (layout : string -> option DOMRect) (this : AppComponent) :
  index (snd (ngAfterViewInit container layout this)) = index this.
Proof.
  rewrite ngAfterViewInit_run. destruct container as [box |]; [| reflexivity].
  cbv zeta.
  destruct (updateCoordsMap layout (rows this) (rowsCoordsMap this)) as [[[] | e] m1];
    [| reflexivity].
  destruct (updateCoordsMap layout (cols this) (colsCoordsMap this)) as [[[] | e] m2];
    [| reflexivity].
  rewrite animationLoop_run. simpl. destruct (readyToAnimation this); reflexivity.
Qed.

Lemma span_two_ordered (e s : number) : (e - s)%js = of_nat 2 -> ltb s e = true.
Proof.
  destruct e as [p | | |], s as [q | | |]; simpl; try discriminate.
  intros H. injection H as H. apply Qle_bool_false_lt.
  assert (E : (p - q == 2)%Q).
  { rewrite <- (Qred_correct (p - q)), H. reflexivity. }
  apply Qlt_minus_iff. rewrite E. reflexivity.
Qed.

(** X19.  From the component as constructed, through [ngAfterViewInit]
    and any series of gestures that completes, the row span is 2 and the
    column span is 0: [rowStart] stays strictly below [rowEnd], so the
    division of [calcCenter] is never by zero on that path. *)
Theorem spans_from_construction (container : option DOMRect)
    (layout : string -> option DOMRect)
    (rowIds colIds : list string) (gs : list (point * DOMRect))
    (ready this' : AppComponent) :
  ngAfterViewInit container layout (new_AppComponent rowIds colIds)
    = (Normal tt, ready) ->
  gestures gs ready = (Normal tt, this') ->
  rowSpan this' = of_nat 2 /\ colSpan this' = of_nat 0 /\
  ltb (rowStart (index this')) (rowEnd (index this')) = true.
Proof.
  intros Hinit Hgs.
  pose proof (ngAfterViewInit_index container layout
                (new_AppComponent rowIds colIds)) as Hi.
  rewrite Hinit in Hi. simpl in Hi.
  destruct (gestures_Normal_inv gs ready this' Hgs) as (S1 & S2 & _).
  assert (R : rowSpan this' = of_nat 2).
  { rewrite S1. unfold rowSpan. rewrite Hi. reflexivity. }
  split; [exact R |]. split.
  - rewrite S2. unfold colSpan. rewrite Hi. reflexivity.
  - apply span_two_ordered. exact R.
Qed.

Lemma frames_no_flag (n : nat) (this : AppComponent) :
  readyToAnimation this = false ->
  dragEnded (frames n this) = dragEnded this /\
  readyToAnimation (frames n this) = false.
Proof.
  revert this. induction n as [| n IH]; intros this H; simpl; [auto |].
  assert (E : dragEnded (snd (frameTick this)) = dragEnded this /\
              readyToAnimation (snd (frameTick this)) = false).
  { rewrite frameTick_run. simpl.
    destruct (pendingFrames this); [auto |]. rewrite H. auto. }
  destruct E as [E1 E2]. destruct (IH _ E2) as [I1 I2].
  split; [congruence | exact I2].
Qed.

Variables (distance : point) (el : DOMRect) (this : AppComponent).

Lemma frames_idle (n : nat) (s : AppComponent) :
  readyToAnimation s = false -> frames n s = s.
Proof.
  induction n as [| n IH]; intros H; simpl; [reflexivity |].
  assert (E : snd (frameTick s) = s).
  { rewrite frameTick_run. destruct s as [de p i rws cls ra rm cm ob sb dp [| k]];
      simpl in *; [reflexivity |]. rewrite H. reflexivity. }
  rewrite E. exact (IH H).
Qed.

Lemma frameTick_flagged (s : AppComponent) :
  pendingFrames s <> 0 -> readyToAnimation s = true ->
  dragEnded (snd (frameTick s)) = true /\
  readyToAnimation (snd (frameTick s)) = false /\
  pos (snd (frameTick s)) = pos s /\
  index (snd (frameTick s)) = index s /\
  snd (frameTick (snd (frameTick s))) = snd (frameTick s).
Proof.
  intros Hp Hr. rewrite !frameTick_run.
  destruct s as [de p i rws cls ra rm cm ob sb dp [| k]]; simpl in *;
    [congruence |].
  subst ra. simpl. repeat split.
Qed.

(** X20.  When no flag is pending at its start, a gesture that completes
    leaves [dragEnded] lowered and the flag set, whatever number of
    frames passed between its start, its move and its drop; the next
    frame, if the loop is running, raises [dragEnded] and clears the
    flag without touching the offset or the index, and the frame after
    that changes nothing. *)
Theorem gesture_then_frame (a b : nat) (this' : AppComponent) :
  gestureWithFrames a b distance el this = (Normal tt, this') ->
  readyToAnimation this = false ->
  pendingFrames this <> 0 ->
  dragEnded this' = false /\ readyToAnimation this' = true /\
  dragEnded (snd (frameTick this')) = true /\
  readyToAnimation (snd (frameTick this')) = false /\
  pos (snd (frameTick this')) = pos this' /\
  index (snd (frameTick this')) = index this' /\
  snd (frameTick (snd (frameTick this'))) = snd (frameTick this').
Proof.
  intros H Hr Hp.
  assert (E : gestureWithFrames a b distance el this
              = dragDropped el (set_pos distance (set_dragEnded false this))).
  { unfold gestureWithFrames, bind, dragStarted, dragMoved, modify. simpl.
    rewrite (frames_idle a) by exact Hr. simpl.
    rewrite (frames_idle b) by exact Hr. reflexivity. }
  rewrite E in H.
  destruct (dragDropped_Normal_inv _ _ _ H)
    as (row & col & dx & dy & _ & _ & _ & _ & _ & _ & Hthis).
  assert (D : dragEnded this' = false) by (rewrite Hthis; reflexivity).
  assert (F : readyToAnimation this' = true) by (rewrite Hthis; reflexivity).
  assert (P : pendingFrames this' <> 0) by (rewrite Hthis; exact Hp).
  split; [exact D |]. split; [exact F |].
  exact (frameTick_flagged this' P F).
Qed.

(** X21.  A gesture that faults sets no flag: when none was pending, no
    number of frames afterwards raises [dragEnded], which the start of
    the gesture lowered; the element is left at the offset of its last
    move. *)
Theorem faulted_gesture_never_animates (e : error) (this' : AppComponent) :
  gesture distance el this = (Throw e, this') ->
  readyToAnimation this = false ->
  pos this' = distance /\
  forall n, dragEnded (frames n this') = false /\
            readyToAnimation (frames n this') = false.
Proof.
  intros H Hr. rewrite gesture_run in H.
  pose proof (dragDropped_untouched el (set_pos distance (set_dragEnded false this))) as F.
  cbv zeta in F. rewrite H in F. simpl in F.
  destruct F as (_ & _ & _ & _ & Fd & _ & _ & _ & _ & Ff).
  destruct Ff as [Fp Fr]; [discriminate |].
  split; [exact Fp |]. intros n.
  destruct (frames_no_flag n this') as [N1 N2]; [congruence |].
  split; [congruence | exact N2].
Qed.

End FromConstruction.

(* ===================================================================== *)
(** ** The example grid as an instance of the statements above *)
(* ===================================================================== *)

Lemma updateCoordsMap_measures_witness :
  fst (updateCoordsMap gridLayout gridRows ∅) = Normal tt.
Proof.
  exact (proj1 (updateCoordsMap_measures gridLayout gridRows ∅ eq_refl)).
Defined.

Lemma updateCoordsMap_missing_element_witness :
  updateCoordsMap gridBrokenLayout gridRows ∅
  = (Throw TypeError, snd (updateCoordsMap gridBrokenLayout ["rowid_a"%string] ∅)).
Proof.
  exact (updateCoordsMap_missing_element gridBrokenLayout ["rowid_a"%string]
           ["rowid_c"%string] "rowid_b"%string ∅ eq_refl eq_refl).
Defined.

Lemma updateCoordsMap_keeps_keys_witness :
  is_Some (snd (updateCoordsMap gridNarrowLayout gridCols (rowsCoordsMap gridApp))
             !! "rowid_a"%string).
Proof.
  apply updateCoordsMap_keeps_keys. eexists. vm_compute. reflexivity.
Defined.

Lemma resolution_first_meeting_track_witness :
  exists k b,
    intersectArrayIndex
      (<[0 := Some (probeAt (pixels 7) (pixels 10))]>
         (createCoordsArray gridRows (rowsCoordsMap gridApp)))
    = Normal (of_nat (S k)) /\ gridRowBoxes !! k = Some b.
Proof.
  destruct (resolution_first_meeting_track gridRows (rowsCoordsMap gridApp)
              gridRowBoxes ltac:(vm_compute; reflexivity)
              (probeAt (pixels 7) (pixels 10)))
    as [[H _] | (k & b & H & _ & Hb & _)].
  - vm_compute in H. discriminate.
  - exists k, b. auto.
Defined.

Lemma strictly_inside_resolves_to_column_witness :
  intersectArrayIndex
    (<[0 := Some (probeAt (pixels 7) (pixels 12))]>
       (createCoordsArray gridCols (colsCoordsMap gridApp)))
  = Normal (of_nat 2).
Proof.
  refine (strictly_inside_resolves_to_column gridCols (colsCoordsMap gridApp)
            gridColBoxes _ (pixels 7) (pixels 12) 1
            (Coords (pixels 5) (pixels 0) (pixels 15) (pixels 30)) _ _ _);
    vm_compute; reflexivity.
Defined.

Lemma ngAfterViewInit_ready_witness :
  exists this',
    ngAfterViewInit (Some gridContainer) gridLayout
      (new_AppComponent gridRows gridCols) = (Normal tt, this') /\
    subscribed this' = true /\ pendingFrames this' = 1.
Proof.
  destruct (ngAfterViewInit_ready gridLayout gridContainer
              (new_AppComponent gridRows gridCols)
              eq_refl eq_refl) as (this' & H & _ & Hs & Hp & _).
  exists this'. auto.
Defined.

Lemma ngAfterViewInit_missing_element_witness :
  exists this',
    ngAfterViewInit (Some gridContainer) gridBrokenLayout
      (new_AppComponent gridRows gridCols)
      = (Throw TypeError, this') /\
    observing this' = true /\ subscribed this' = false /\ pendingFrames this' = 0.
Proof.
  destruct (proj2 (ngAfterViewInit_missing_element gridBrokenLayout
                     (new_AppComponent gridRows gridCols)) gridContainer eq_refl)
    as (this' & H & Ho & Hs & Hp & _).
  exists this'. auto.
Defined.

Lemma dragDropped_uncached_row_witness :
  dragDropped gridElement (new_AppComponent gridRows gridCols)
  = (Throw TypeError, new_AppComponent gridRows gridCols).
Proof.
  apply (dragDropped_uncached_row gridElement (new_AppComponent gridRows gridCols)
           "rowid_a"%string); [left; reflexivity | vm_compute; reflexivity].
Defined.

Lemma missed_drop_sticks_witness :
  exists this',
    dragDropped gridElement gridDraggedBelow = (Throw TypeError, this') /\
    rowSpan this' = NaN.
Proof.
  destruct (missed_drop_sticks gridElement gridDraggedBelow
              ltac:(right; vm_compute; reflexivity)) as (this' & H & Hs & _).
  exists this'. auto.
Defined.

Lemma drop_inside_cell_witness :
  exists this',
    dragDropped gridElement gridDragged = (Normal tt, this') /\
    readyToAnimation this' = true.
Proof.
  destruct (drop_inside_cell gridElement gridDragged gridRowBoxes gridColBoxes
              ltac:(vm_compute; reflexivity) ltac:(vm_compute; reflexivity) 1 1
              (Coords (pixels 0) (pixels 10) (pixels 15) (pixels 20))
              (Coords (pixels 5) (pixels 0) (pixels 15) (pixels 30))
              eq_refl eq_refl eq_refl eq_refl
              ltac:(vm_compute; reflexivity) ltac:(vm_compute; reflexivity))
    as (this' & H & _ & _ & Hr).
  exists this'. auto.
Defined.

Lemma gestures_keep_spans_witness :
  rowSpan (snd (gestures [gridGesture; gridGesture] gridApp)) = rowSpan gridApp.
Proof.
  exact (proj1 (gestures_keep_spans [gridGesture; gridGesture] gridApp
                  (snd (gestures [gridGesture; gridGesture] gridApp))
                  ltac:(vm_compute; reflexivity))).
Defined.

Lemma spans_from_construction_witness :
  rowSpan (snd (gestures [gridGesture] gridApp)) = of_nat 2.
Proof.
  exact (proj1 (spans_from_construction (Some gridContainer) gridLayout
                  gridRows gridCols [gridGesture]
                  gridApp (snd (gestures [gridGesture] gridApp))
                  ltac:(vm_compute; reflexivity) ltac:(vm_compute; reflexivity))).
Defined.

Lemma gesture_then_frame_witness :
  dragEnded
    (snd (frameTick
            (snd (gestureWithFrames 2 3 (fst gridGesture) (snd gridGesture) gridApp))))
  = true.
Proof.
  refine (proj1 (proj2 (proj2 (gesture_then_frame (fst gridGesture) (snd gridGesture)
            gridApp 2 3
            (snd (gestureWithFrames 2 3 (fst gridGesture) (snd gridGesture) gridApp))
            _ _ _))));
    vm_compute; [reflexivity | reflexivity | discriminate].
Defined.

Lemma faulted_gesture_never_animates_witness :
  pos (snd (gesture (fst gridGestureBelow) (snd gridGestureBelow) gridApp))
  = fst gridGestureBelow.
Proof.
  refine (proj1 (faulted_gesture_never_animates (fst gridGestureBelow)
            (snd gridGestureBelow) gridApp TypeError
            (snd (gesture (fst gridGestureBelow) (snd gridGestureBelow) gridApp)) _ _));
    vm_compute; reflexivity.
Defined.
